(** * kprom: Prometheus counters driven by kgo client hooks

    A shallow embedding of [plugin/kprom/kprom.go].  The Go source is a
    thin layer over its collaborators; each lives in a module of its
    own here, named after the Go package it stands for:

    - [utf8]       : [ValidString], the check label values go through;
    - [strconv]    : [Itoa], the decimal printer used for the node label;
    - [prometheus] : counter vectors, registries and descriptors, by the
                     documented contract of client_golang;
    - [promauto]   : the registering factory;
    - [promhttp]   : the scrape handler (carried, never run);
    - [kgo]        : the argument types of the six hooks;
    - [kprom]      : the package itself, function by function.

    Conventions.  Go's [int] is the 64-bit signed integer and [int32]
    its 32-bit sibling; both are carried as [Z].  A [uint64] is an
    integer together with the evidence that it lies in 0 .. 2^64 - 1,
    and its addition wraps around.  A float64 that holds an integer is
    given as that integer.  A panic is the [Panic] result.  Pointers to
    registries are locations in an explicit heap. *)

From Stdlib Require Import ZArith String Ascii List Bool Lia.
From stdpp Require Import base option gmap strings list.

Local Open Scope string_scope.
Local Open Scope Z_scope.

(** ** Results and state passing *)

(** A Go call either returns or panics with a message. *)
Inductive result (A : Type) : Type :=
| Ok (a : A)
| Panic (msg : string).
Arguments Ok {A} a.
Arguments Panic {A} msg.

(** Code that mutates an object of type [S] through a pointer. *)
Definition St (S A : Type) : Type := S -> result (A * S).

Definition ret {S A : Type} (a : A) : St S A := fun s => Ok (a, s).

Definition bind {S A B : Type} (c : St S A) (k : A -> St S B) : St S B :=
  fun s => match c s with
           | Ok (a, s') => k a s'
           | Panic msg => Panic msg
           end.

Definition panic {S A : Type} (msg : string) : St S A := fun _ => Panic msg.

Declare Scope st_scope.
Delimit Scope st_scope with st.
Notation "x <- c ;; k" := (bind c (fun x => k))
  (at level 100, c at next level, right associativity) : st_scope.
Notation "c ;;; k" := (bind c (fun _ => k))
  (at level 100, right associativity) : st_scope.

(** Did the call return? *)
Definition returns {A : Type} (r : result A) : bool :=
  match r with Ok _ => true | Panic _ => false end.

(** ** Integer types *)

Definition int32_range (n : Z) : Prop := - 2 ^ 31 <= n < 2 ^ 31.

Definition MinInt32 : Z := - 2 ^ 31.

(** The conversion [int(x)] of an [int32]: sign extension, which keeps
    the value. *)
Definition int_of_int32 (x : Z) : Z := x.

(** [uint64]: what is left of an integer modulo 2^64. *)
Definition wrap64 (z : Z) : Z := z mod 2 ^ 64.

Record uint64 : Type := {
  u64 : Z;
  u64_wrapped : (wrap64 u64 =? u64) = true
}.

Definition wrap64_wrapped (z : Z) : (wrap64 (wrap64 z) =? wrap64 z) = true.
Proof.
  apply Z.eqb_eq. unfold wrap64. apply Z.mod_mod. discriminate.
Qed.

(** The conversion [uint64(z)]. *)
Definition to_uint64 (z : Z) : uint64 :=
  {| u64 := wrap64 z; u64_wrapped := wrap64_wrapped z |}.

(** [atomic.AddUint64]: the sum, wrapped around. *)
Definition AddUint64 (a : uint64) (delta : Z) : uint64 :=
  to_uint64 (u64 a + delta).

(** The conversion [float64(n)] of an [int] or a [uint64].  Every such
    integer converts to an integer-valued double, so the result is
    given as the integer it denotes: [n] itself while it fits the
    53-bit significand, and otherwise the nearest multiple of the unit
    in the last place, ties going to the even significand. *)
Definition float64 (n : Z) : Z :=
  let a := Z.abs n in
  let e := Z.log2 a - 52 in
  if e <=? 0 then n
  else
    let q := Z.shiftr a e in
    let r := a - Z.shiftl q e in
    let half := Z.shiftl 1 (e - 1) in
    let q' := if (half <? r) || ((r =? half) && Z.odd q) then q + 1 else q in
    Z.sgn n * Z.shiftl q' e.

(** ** Strings

    A Go string is a sequence of bytes, and so is a [string] here. *)

Fixpoint all_chars (p : ascii -> bool) (s : string) : bool :=
  match s with
  | EmptyString => true
  | String c s' => p c && all_chars p s'
  end.

Module utf8.

(** Is the byte [c] between [lo] and [hi]? *)
Definition in_range (lo hi : N) (c : ascii) : bool :=
  let b := N_of_ascii c in ((lo <=? b) && (b <=? hi))%N.

(** For a leading byte at or above 128: how many continuation bytes
    follow, and the range of the first of them (the others range over
    128..191).  This is the table behind the decoder: no overlong
    forms, no surrogates, nothing above U+10FFFF. *)
Definition accept (b0 : N) : option (nat * (N * N)) :=
  (if b0 <? 194 then None
   else if b0 <=? 223 then Some (1%nat, (128, 191))
   else if b0 =? 224 then Some (2%nat, (160, 191))
   else if b0 =? 237 then Some (2%nat, (128, 159))
   else if b0 <=? 239 then Some (2%nat, (128, 191))
   else if b0 =? 240 then Some (3%nat, (144, 191))
   else if b0 <=? 243 then Some (3%nat, (128, 191))
   else if b0 =? 244 then Some (3%nat, (128, 143))
   else None)%N.

(** [utf8.ValidString]: the bytes are a sequence of well-formed
    encodings. *)
Fixpoint ValidString (s : string) : bool :=
  match s with
  | EmptyString => true
  | String c0 s1 =>
      if (N_of_ascii c0 <? 128)%N then ValidString s1
      else
        match accept (N_of_ascii c0) with
        | Some (1%nat, (lo, hi)) =>
            match s1 with
            | String c1 s2 => in_range lo hi c1 && ValidString s2
            | _ => false
            end
        | Some (2%nat, (lo, hi)) =>
            match s1 with
            | String c1 (String c2 s3) =>
                in_range lo hi c1 && in_range 128 191 c2 && ValidString s3
            | _ => false
            end
        | Some (3%nat, (lo, hi)) =>
            match s1 with
            | String c1 (String c2 (String c3 s4)) =>
                in_range lo hi c1 && in_range 128 191 c2
                && in_range 128 191 c3 && ValidString s4
            | _ => false
            end
        | _ => false
        end
  end.

End utf8.

(** ** strconv *)

Module strconv.

Definition digit (d : Z) : ascii := ascii_of_N (48 + Z.to_N d).

(** The digit loop of [formatBits] in base 10: the least significant
    digit is written first, at the end of the buffer.  [fuel] bounds
    the number of digits. *)
Fixpoint formatBits (fuel : nat) (u : Z) (buf : string) : string :=
  match fuel with
  | O => buf
  | S fuel' =>
      if u <? 10 then String (digit u) buf
      else formatBits fuel' (u / 10) (String (digit (u mod 10)) buf)
  end.

(** [FormatInt(i, 10)]: the digits of the magnitude, then the sign. *)
Definition FormatInt (i : Z) : string :=
  let u := Z.abs i in
  let a := formatBits (S (Z.to_nat (Z.log2 u))) u "" in
  if i <? 0 then String "-" a else a.

Definition Itoa (i : Z) : string := FormatInt i.

(** The reading direction, used to say what a decimal string denotes. *)
Definition digit_value (c : ascii) : option Z :=
  let n := Z.of_N (N_of_ascii c) in
  if (48 <=? n) && (n <=? 57) then Some (n - 48) else None.

Fixpoint parse_digits (s : string) (acc : Z) : option Z :=
  match s with
  | EmptyString => Some acc
  | String c s' =>
      match digit_value c with
      | Some d => parse_digits s' (10 * acc + d)
      | None => None
      end
  end.

Definition parse_unsigned (s : string) : option Z :=
  match s with
  | EmptyString => None
  | _ => parse_digits s 0
  end.

Definition Atoi (s : string) : option Z :=
  match s with
  | String "-" s' => Z.opp <$> parse_unsigned s'
  | _ => parse_unsigned s
  end.

(** Canonical shape: an optional minus sign, then digits without a
    leading zero; zero is written as the single digit and never
    signed. *)
Definition canonical_unsigned (s : string) : bool :=
  match s with
  | EmptyString => false
  | String "0" EmptyString => true
  | String "0" _ => false
  | _ => true
  end.

Definition canonical (s : string) : bool :=
  match s with
  | String "-" s' =>
      canonical_unsigned s' && negb (String.eqb s' "0")
  | _ => canonical_unsigned s
  end.

End strconv.

(** ** prometheus

    The metrics library is a collaborator, not part of the package.  It
    is modelled by what its counters and registries do for a caller:

    - a counter vector maps a tuple of label values to a counter, made
      zero on first use; [WithLabelValues] panics when the number of
      values differs from the number of label names, or when a value is
      not valid UTF-8;
    - a counter keeps the integer amounts added to it in a [uint64],
      [valInt], by [atomic.AddUint64]: the total wraps around at 2^64.
      [Inc] adds 1 to it; [Add] panics on a negative amount and adds an
      integer one to it;
    - the value a counter reports is [float64(valInt)]: the total,
      rounded to a double once it is above 2^53;
    - [Register] refuses a collector whose descriptor is invalid or whose
      fully-qualified name is already taken in the registry, and
      [MustRegister] turns the refusal into a panic.

    A counter has a second accumulator, a float64 for amounts with a
    fractional part or from 2^64 on.  Every amount this package adds
    is 1 or the float64 of an [int], an integer of at most 2^63, so
    that accumulator stays at 0.0, adds nothing to the reported value
    and is left out. *)

Module prometheus.

(** What the package does not fix about the library: which names are
    valid metric names, and what the two auxiliary collectors
    describe. *)
Class Library : Type := {
  IsValidMetricName : string -> bool;
  ProcessCollectorDescs : list string;
  GoCollectorDescs : list string
}.

Record Desc : Type := {
  fqName : string;
  help : string;
  variableLabels : list string
}.

Record CounterOpts : Type := {
  Namespace : string;
  Subsystem : string;
  Name : string;
  Help : string
}.

(** [BuildFQName]: the non-empty components joined by underscores. *)
Definition BuildFQName (namespace subsystem name : string) : string :=
  if String.eqb name "" then ""
  else if negb (String.eqb namespace "") && negb (String.eqb subsystem "")
  then namespace +:+ "_" +:+ subsystem +:+ "_" +:+ name
  else if negb (String.eqb namespace "") then namespace +:+ "_" +:+ name
  else if negb (String.eqb subsystem "") then subsystem +:+ "_" +:+ name
  else name.

(** *** Counter vectors *)

(** The counters of a vector by label tuple, each given by its
    [valInt]. *)
Record CounterVec : Type := {
  desc : Desc;
  children : gmap (list string) uint64
}.

Definition NewCounterVec (opts : CounterOpts) (labelNames : list string)
  : CounterVec :=
  {| desc := {| fqName := BuildFQName (Namespace opts) (Subsystem opts) (Name opts);
                help := Help opts;
                variableLabels := labelNames |};
     children := ∅ |}.

(** A counter of a vector is addressed by its label values. *)
Definition Counter : Type := list string.

Definition with_children
  (f : gmap (list string) uint64 -> gmap (list string) uint64)
  (v : CounterVec) : CounterVec :=
  {| desc := desc v; children := f (children v) |}.

(** The counter at a tuple; a tuple not used yet stands for the zero
    counter it would be made with. *)
Definition counter_at (lvs : list string) (v : CounterVec) : uint64 :=
  default (to_uint64 0) (children v !! lvs).

(** The integer total the counter at a tuple holds. *)
Definition valInt (lvs : list string) (v : CounterVec) : Z :=
  u64 (counter_at lvs v).

(** The value the counter at a tuple reports: [float64(valInt)]. *)
Definition value_of (lvs : list string) (v : CounterVec) : Z :=
  float64 (valInt lvs v).

Definition WithLabelValues (lvs : list string) : St CounterVec Counter :=
  fun v =>
    if negb (Nat.eqb (length lvs) (length (variableLabels (desc v))))
    then Panic "inconsistent label cardinality"
    else if negb (forallb utf8.ValidString lvs)
    then Panic "label value is not valid UTF-8"
    else Ok (lvs, match children v !! lvs with
                  | Some _ => v
                  | None => with_children (insert lvs (to_uint64 0)) v
                  end).

(** [Add(x)] for an amount [x] that is an integer below 2^64, as
    the float64 of an [int] is: a negative amount panics; otherwise
    [uint64(x)] is [x] exactly, and it is added to [valInt] by
    [atomic.AddUint64]. *)
Definition Add (c : Counter) (x : Z) : St CounterVec unit :=
  fun v =>
    if x <? 0 then Panic "counter cannot decrease in value"
    else Ok (tt, with_children (insert c (AddUint64 (counter_at c v) x)) v).

(** [Inc()]: [atomic.AddUint64(&c.valInt, 1)]. *)
Definition Inc (c : Counter) : St CounterVec unit :=
  fun v => Ok (tt, with_children (insert c (AddUint64 (counter_at c v) 1)) v).

(** The vector after [x] has been added at [lvs]. *)
Definition add_at (lvs : list string) (x : Z) (v : CounterVec) : CounterVec :=
  with_children (insert lvs (AddUint64 (counter_at lvs v) x)) v.

(** *** Registries *)

(** A registry, as far as registration goes: the fully-qualified
    names of the descriptors registered so far. *)
Record Registry : Type := { names : list string }.

Abbreviation loc := positive.

(** A pointer to a registry: nil or a location of the heap.  Go never
    yields a pointer to nothing; a location outside the heap, which
    only the model has, is treated like nil. *)
Definition ptr : Type := option loc.

Abbreviation heap := (gmap positive Registry).

Definition NewRegistry : St heap ptr :=
  fun h => let l := fresh (dom h) in
           Ok (Some l, <[l := {| names := [] |}]> h).

Definition mem (x : string) (l : list string) : bool :=
  existsb (String.eqb x) l.

Fixpoint distinct (l : list string) : bool :=
  match l with
  | [] => true
  | x :: l' => negb (mem x l') && distinct l'
  end.

Section WithLibrary.
Context `{Library}.

(** [Register] of a collector describing [ds]: all or nothing. *)
Definition Register (ds : list string) (r : Registry) : option Registry :=
  if forallb IsValidMetricName ds
     && forallb (fun d => negb (mem d (names r))) ds
     && distinct ds
  then Some {| names := names r ++ ds |}
  else None.

Definition MustRegister (p : ptr) (ds : list string) : St heap unit :=
  fun h =>
    match p with
    | None => Panic "invalid memory address or nil pointer dereference"
    | Some l =>
        match h !! l with
        | None => Panic "invalid memory address or nil pointer dereference"
        | Some r =>
            match Register ds r with
            | Some r' => Ok (tt, <[l := r']> h)
            | None => Panic "registration failed"
            end
        end
    end.

(** Collectors registered one after the other through [p]. *)
Fixpoint register_all (p : ptr) (dss : list (list string)) : St heap unit :=
  match dss with
  | [] => ret tt
  | ds :: dss' => (MustRegister p ds ;;; register_all p dss')%st
  end.
End WithLibrary.

(** The name rule of the text exposition format,
    [[a-zA-Z_:][a-zA-Z0-9_:]*]. *)
Definition name_start (c : ascii) : bool :=
  let n := N_of_ascii c in
  ((65 <=? n) && (n <=? 90) || (97 <=? n) && (n <=? 122)
   || (n =? 95) || (n =? 58))%N.

Definition name_char (c : ascii) : bool :=
  name_start c || (let n := N_of_ascii c in (48 <=? n) && (n <=? 57))%N.

Definition legacy_valid (s : string) : bool :=
  match s with
  | EmptyString => false
  | String c s' => name_start c && all_chars name_char s'
  end.

(** An instance to run the model with: the classic name rule and a
    few of the descriptors of the two auxiliary collectors. *)
Definition client_golang : Library := {|
  IsValidMetricName := legacy_valid;
  ProcessCollectorDescs :=
    ["process_cpu_seconds_total"; "process_open_fds"; "process_max_fds";
     "process_virtual_memory_bytes"; "process_resident_memory_bytes";
     "process_start_time_seconds"];
  GoCollectorDescs :=
    ["go_goroutines"; "go_threads"; "go_gc_duration_seconds"; "go_info";
     "go_memstats_alloc_bytes"]
|}.

End prometheus.

(** ** promauto *)

Module promauto.
Import prometheus.

(** A factory holds a [Registerer] interface value: [None] is the nil
    interface, [Some p] an interface holding the pointer [p], which may
    itself be nil. *)
Record Factory : Type := { r : option ptr }.

Definition With (p : ptr) : Factory := {| r := Some p |}.

Section WithLibrary.
Context `{Library}.

(** [Factory.NewCounterVec]: make the vector, register it unless the
    interface is nil, return it. *)
Definition NewCounterVec (f : Factory) (opts : CounterOpts)
  (labelNames : list string) : St heap CounterVec :=
  let c := prometheus.NewCounterVec opts labelNames in
  match r f with
  | Some p => (MustRegister p [fqName (desc c)] ;;; ret c)%st
  | None => ret c
  end.
End WithLibrary.
End promauto.

(** ** promhttp *)

Module promhttp.
(** The handler options are carried to the scrape handler untouched. *)
Record HandlerOpts : Type := {
  ErrorHandling : Z;
  MaxRequestsInFlight : Z;
  HandlerTimeout : Z
}.

Definition zero : HandlerOpts :=
  {| ErrorHandling := 0; MaxRequestsInFlight := 0; HandlerTimeout := 0 |}.

(** [HandlerFor]: the handler is determined by the registry it serves
    and its options. *)
Record Handler : Type := HandlerFor {
  gatherer : prometheus.ptr;
  opts : HandlerOpts
}.
End promhttp.

(** ** Argument types of the hooks *)

Module time.
(** [time.Duration]: a count of nanoseconds. *)
Definition Duration : Type := Z.
End time.

Module net.
(** [net.Conn]: an interface value, nil or a connection. *)
Definition Conn : Type := option positive.
End net.

(** The [error] interface: nil, or an error with its message. *)
Definition error : Type := option string.

Module kgo.

(** Modelled from the spec: [kgo.BrokerMetadata] is declared in
    [pkg/kgo], which is not among the sources.  The spec gives the
    node identifier, a signed 32-bit integer; the other fields stand
    for the rest of the node metadata handed to every hook. *)
Record BrokerMetadata : Type := {
  NodeID : Z;
  Port : Z;
  Host : string;
  Rack : option string
}.

(** Modelled from the spec: [kgo.ProduceBatchMetrics] is declared in
    [pkg/kgo]; the spec gives batch metrics that include the
    uncompressed byte count, an [int]. *)
Module ProduceBatchMetrics.
Record t : Type := {
  NumRecords : Z;
  UncompressedBytes : Z;
  CompressedBytes : Z;
  CompressionType : Z
}.
End ProduceBatchMetrics.

(** Modelled from the spec: [kgo.FetchBatchMetrics], as above. *)
Module FetchBatchMetrics.
Record t : Type := {
  NumRecords : Z;
  UncompressedBytes : Z;
  CompressedBytes : Z;
  CompressionType : Z
}.
End FetchBatchMetrics.

End kgo.

(** ** kprom *)

Module kprom.

(** *** Configuration and options *)

Record cfg : Type := {
  reg : prometheus.ptr;
  handlerOpts : promhttp.HandlerOpts;
  goCollectors : bool
}.

(** The struct [opt] wraps a closure over a pointer to [cfg]: it
    updates the configuration it is pointed at. *)
Record opt : Type := { fn : cfg -> cfg }.

Definition Opt : Type := opt.

Definition apply (o : opt) (c : cfg) : cfg := fn o c.

Definition Registry (r : prometheus.ptr) : Opt :=
  {| fn := fun c => {| reg := r;
                       handlerOpts := handlerOpts c;
                       goCollectors := goCollectors c |} |}.

Definition GoCollectors : Opt :=
  {| fn := fun c => {| reg := reg c;
                       handlerOpts := handlerOpts c;
                       goCollectors := true |} |}.

Definition HandlerOpts (opts : promhttp.HandlerOpts) : Opt :=
  {| fn := fun c => {| reg := reg c;
                       handlerOpts := opts;
                       goCollectors := goCollectors c |} |}.

(** *** The aggregator *)

Record Metrics : Type := {
  Metrics_cfg : cfg;

  connects : prometheus.CounterVec;
  connectErrs : prometheus.CounterVec;
  disconnects : prometheus.CounterVec;

  writeErrs : prometheus.CounterVec;
  writeBytes : prometheus.CounterVec;

  readErrs : prometheus.CounterVec;
  readBytes : prometheus.CounterVec;

  produceBytes : prometheus.CounterVec;
  fetchBytes : prometheus.CounterVec
}.

Definition Metrics_Registry (m : Metrics) : prometheus.ptr :=
  reg (Metrics_cfg m).

Definition Metrics_Handler (m : Metrics) : promhttp.Handler :=
  promhttp.HandlerFor (reg (Metrics_cfg m)) (handlerOpts (Metrics_cfg m)).

(** The counter vectors of the struct, by the names they are
    registered under. *)
Inductive family : Type :=
| connects_total
| connect_errors_total
| disconnects_total
| write_errors_total
| write_bytes_total
| read_errors_total
| read_bytes_total
| produce_bytes_total
| fetch_bytes_total.

Definition families : list family :=
  [connects_total; connect_errors_total; disconnects_total;
   write_errors_total; write_bytes_total;
   read_errors_total; read_bytes_total;
   produce_bytes_total; fetch_bytes_total].

#[global] Instance family_eq_dec : EqDecision family.
Proof. solve_decision. Defined.

(** Reading a field of the struct. *)
Definition vec (f : family) (m : Metrics) : prometheus.CounterVec :=
  match f with
  | connects_total => connects m
  | connect_errors_total => connectErrs m
  | disconnects_total => disconnects m
  | write_errors_total => writeErrs m
  | write_bytes_total => writeBytes m
  | read_errors_total => readErrs m
  | read_bytes_total => readBytes m
  | produce_bytes_total => produceBytes m
  | fetch_bytes_total => fetchBytes m
  end.

(** The vector behind a field after a call through its pointer. *)
Definition set_vec (f : family) (v : prometheus.CounterVec) (m : Metrics)
  : Metrics :=
  {| Metrics_cfg := Metrics_cfg m;
     connects := if decide (f = connects_total) then v else connects m;
     connectErrs := if decide (f = connect_errors_total) then v else connectErrs m;
     disconnects := if decide (f = disconnects_total) then v else disconnects m;
     writeErrs := if decide (f = write_errors_total) then v else writeErrs m;
     writeBytes := if decide (f = write_bytes_total) then v else writeBytes m;
     readErrs := if decide (f = read_errors_total) then v else readErrs m;
     readBytes := if decide (f = read_bytes_total) then v else readBytes m;
     produceBytes := if decide (f = produce_bytes_total) then v else produceBytes m;
     fetchBytes := if decide (f = fetch_bytes_total) then v else fetchBytes m |}.

(** A method call on the vector of field [f] of [m]. *)
Definition on {A : Type} (f : family) (c : St prometheus.CounterVec A)
  : St Metrics A :=
  fun m => match c (vec f m) with
           | Ok (a, v) => Ok (a, set_vec f v m)
           | Panic msg => Panic msg
           end.

Definition family_name (f : family) : string :=
  match f with
  | connects_total => "connects_total"
  | connect_errors_total => "connect_errors_total"
  | disconnects_total => "disconnects_total"
  | write_errors_total => "write_errors_total"
  | write_bytes_total => "write_bytes_total"
  | read_errors_total => "read_errors_total"
  | read_bytes_total => "read_bytes_total"
  | produce_bytes_total => "produce_bytes_total"
  | fetch_bytes_total => "fetch_bytes_total"
  end.

Definition family_labels (f : family) : list string :=
  match f with
  | produce_bytes_total | fetch_bytes_total => ["node_id"; "topic"]
  | _ => ["node_id"]
  end.

(** *** NewMetrics *)

Section WithLibrary.
Context `{prometheus.Library}.

Definition NewMetrics (namespace : string) (opts : list Opt)
  : St prometheus.heap Metrics :=
  (fresh_reg <- prometheus.NewRegistry ;;
   let cfg0 := {| reg := fresh_reg;
                  handlerOpts := promhttp.zero;
                  goCollectors := false |} in
   let cfg := fold_left (fun c o => apply o c) opts cfg0 in
   (if goCollectors cfg
    then (prometheus.MustRegister (reg cfg) prometheus.ProcessCollectorDescs ;;;
          prometheus.MustRegister (reg cfg) prometheus.GoCollectorDescs)
    else ret tt) ;;;
   let factory := promauto.With (reg cfg) in
   connects <- promauto.NewCounterVec factory
     {| prometheus.Namespace := namespace;
        prometheus.Subsystem := "";
        prometheus.Name := "connects_total";
        prometheus.Help := "Total number of connections opened, by broker" |}
     ["node_id"] ;;
   connectErrs <- promauto.NewCounterVec factory
     {| prometheus.Namespace := namespace;
        prometheus.Subsystem := "";
        prometheus.Name := "connect_errors_total";
        prometheus.Help := "Total number of connection errors, by broker" |}
     ["node_id"] ;;
   disconnects <- promauto.NewCounterVec factory
     {| prometheus.Namespace := namespace;
        prometheus.Subsystem := "";
        prometheus.Name := "disconnects_total";
        prometheus.Help := "Total number of connections closed, by broker" |}
     ["node_id"] ;;
   writeErrs <- promauto.NewCounterVec factory
     {| prometheus.Namespace := namespace;
        prometheus.Subsystem := "";
        prometheus.Name := "write_errors_total";
        prometheus.Help := "Total number of write errors, by broker" |}
     ["node_id"] ;;
   writeBytes <- promauto.NewCounterVec factory
     {| prometheus.Namespace := namespace;
        prometheus.Subsystem := "";
        prometheus.Name := "write_bytes_total";
        prometheus.Help := "Total number of bytes written, by broker" |}
     ["node_id"] ;;
   readErrs <- promauto.NewCounterVec factory
     {| prometheus.Namespace := namespace;
        prometheus.Subsystem := "";
        prometheus.Name := "read_errors_total";
        prometheus.Help := "Total number of read errors, by broker" |}
     ["node_id"] ;;
   readBytes <- promauto.NewCounterVec factory
     {| prometheus.Namespace := namespace;
        prometheus.Subsystem := "";
        prometheus.Name := "read_bytes_total";
        prometheus.Help := "Total number of bytes read, by broker" |}
     ["node_id"] ;;
   produceBytes <- promauto.NewCounterVec factory
     {| prometheus.Namespace := namespace;
        prometheus.Subsystem := "";
        prometheus.Name := "produce_bytes_total";
        prometheus.Help := "Total number of uncompressed bytes produced, by broker and topic" |}
     ["node_id"; "topic"] ;;
   fetchBytes <- promauto.NewCounterVec factory
     {| prometheus.Namespace := namespace;
        prometheus.Subsystem := "";
        prometheus.Name := "fetch_bytes_total";
        prometheus.Help := "Total number of uncompressed bytes fetched, by broker and topic" |}
     ["node_id"; "topic"] ;;
   ret {| Metrics_cfg := cfg;
          connects := connects;
          connectErrs := connectErrs;
          disconnects := disconnects;
          writeErrs := writeErrs;
          writeBytes := writeBytes;
          readErrs := readErrs;
          readBytes := readBytes;
          produceBytes := produceBytes;
          fetchBytes := fetchBytes |})%st.
End WithLibrary.

(** *** The six hooks *)

Definition OnBrokerConnect (meta : kgo.BrokerMetadata) (_ : time.Duration)
  (_ : net.Conn) (err : error) : St Metrics unit :=
  let node := strconv.Itoa (int_of_int32 (kgo.NodeID meta)) in
  match err with
  | Some _ =>
      on connect_errors_total
         (c <- prometheus.WithLabelValues [node] ;; prometheus.Inc c)%st
  | None =>
      on connects_total
         (c <- prometheus.WithLabelValues [node] ;; prometheus.Inc c)%st
  end.

Definition OnBrokerDisconnect (meta : kgo.BrokerMetadata) (_ : net.Conn)
  : St Metrics unit :=
  let node := strconv.Itoa (int_of_int32 (kgo.NodeID meta)) in
  on disconnects_total
     (c <- prometheus.WithLabelValues [node] ;; prometheus.Inc c)%st.

Definition OnBrokerWrite (meta : kgo.BrokerMetadata) (_ : Z)
  (bytesWritten : Z) (_ _ : time.Duration) (err : error) : St Metrics unit :=
  let node := strconv.Itoa (int_of_int32 (kgo.NodeID meta)) in
  match err with
  | Some _ =>
      on write_errors_total
         (c <- prometheus.WithLabelValues [node] ;; prometheus.Inc c)%st
  | None =>
      on write_bytes_total
         (c <- prometheus.WithLabelValues [node] ;;
          prometheus.Add c (float64 bytesWritten))%st
  end.

Definition OnBrokerRead (meta : kgo.BrokerMetadata) (_ : Z)
  (bytesRead : Z) (_ _ : time.Duration) (err : error) : St Metrics unit :=
  let node := strconv.Itoa (int_of_int32 (kgo.NodeID meta)) in
  match err with
  | Some _ =>
      on read_errors_total
         (c <- prometheus.WithLabelValues [node] ;; prometheus.Inc c)%st
  | None =>
      on read_bytes_total
         (c <- prometheus.WithLabelValues [node] ;;
          prometheus.Add c (float64 bytesRead))%st
  end.

Definition OnProduceBatchWritten (meta : kgo.BrokerMetadata) (topic : string)
  (_ : Z) (pbm : kgo.ProduceBatchMetrics.t) : St Metrics unit :=
  let node := strconv.Itoa (int_of_int32 (kgo.NodeID meta)) in
  on produce_bytes_total
     (c <- prometheus.WithLabelValues [node; topic] ;;
      prometheus.Add c (float64 (kgo.ProduceBatchMetrics.UncompressedBytes pbm)))%st.

Definition OnFetchBatchRead (meta : kgo.BrokerMetadata) (topic : string)
  (_ : Z) (fbm : kgo.FetchBatchMetrics.t) : St Metrics unit :=
  let node := strconv.Itoa (int_of_int32 (kgo.NodeID meta)) in
  on fetch_bytes_total
     (c <- prometheus.WithLabelValues [node; topic] ;;
      prometheus.Add c (float64 (kgo.FetchBatchMetrics.UncompressedBytes fbm)))%st.

(** *** Events

    The client calls one hook per observed event; an event is a hook
    together with its arguments. *)
Inductive Event : Type :=
| BrokerConnect (meta : kgo.BrokerMetadata) (dialDur : time.Duration)
    (conn : net.Conn) (err : error)
| BrokerDisconnect (meta : kgo.BrokerMetadata) (conn : net.Conn)
| BrokerWrite (meta : kgo.BrokerMetadata) (key : Z) (bytesWritten : Z)
    (writeWait timeToWrite : time.Duration) (err : error)
| BrokerRead (meta : kgo.BrokerMetadata) (key : Z) (bytesRead : Z)
    (readWait timeToRead : time.Duration) (err : error)
| ProduceBatchWritten (meta : kgo.BrokerMetadata) (topic : string)
    (partition : Z) (pbm : kgo.ProduceBatchMetrics.t)
| FetchBatchRead (meta : kgo.BrokerMetadata) (topic : string)
    (partition : Z) (fbm : kgo.FetchBatchMetrics.t).

Definition handle (ev : Event) : St Metrics unit :=
  match ev with
  | BrokerConnect meta d conn err => OnBrokerConnect meta d conn err
  | BrokerDisconnect meta conn => OnBrokerDisconnect meta conn
  | BrokerWrite meta key n w t err => OnBrokerWrite meta key n w t err
  | BrokerRead meta key n w t err => OnBrokerRead meta key n w t err
  | ProduceBatchWritten meta topic p pbm => OnProduceBatchWritten meta topic p pbm
  | FetchBatchRead meta topic p fbm => OnFetchBatchRead meta topic p fbm
  end.

(** The hooks of a list of events, called in order. *)
Fixpoint replay (evs : list Event) : St Metrics unit :=
  match evs with
  | [] => ret tt
  | ev :: evs' => (handle ev ;;; replay evs')%st
  end.

(** *** Reading the state *)

(** The value family [f] reports at label tuple [lvs]. *)
Definition value (f : family) (lvs : list string) (m : Metrics) : Z :=
  prometheus.value_of lvs (vec f m).

(** The integer total behind it. *)
Definition total (f : family) (lvs : list string) (m : Metrics) : Z :=
  prometheus.valInt lvs (vec f m).

(** The state an aggregator is in between calls: every vector has the
    label names it was made with. *)
Definition wf (m : Metrics) : Prop :=
  forall f, prometheus.variableLabels (prometheus.desc (vec f m)) = family_labels f.

(** The states the package can bring an aggregator to: made by
    [NewMetrics], then driven by hook calls that returned. *)
Definition reachable `{prometheus.Library} (m : Metrics) : Prop :=
  exists namespace opts h h' m0 evs,
    NewMetrics namespace opts h = Ok (m0, h') /\ replay evs m0 = Ok (tt, m).

(** The aggregator after [x] has been added to family [f] at [lvs]. *)
Definition update (f : family) (lvs : list string) (x : Z) (m : Metrics)
  : Metrics :=
  set_vec f (prometheus.add_at lvs x (vec f m)) m.

(** *** What a hook does, read off its body

    The family a hook selects, the label values it passes to
    [WithLabelValues] and the amount it hands to the counter ([Inc]
    is 1). *)
Definition meta_of (ev : Event) : kgo.BrokerMetadata :=
  match ev with
  | BrokerConnect meta _ _ _ | BrokerDisconnect meta _
  | BrokerWrite meta _ _ _ _ _ | BrokerRead meta _ _ _ _ _
  | ProduceBatchWritten meta _ _ _ | FetchBatchRead meta _ _ _ => meta
  end.

(** The node label every hook computes from the metadata. *)
Definition node (meta : kgo.BrokerMetadata) : string :=
  strconv.Itoa (int_of_int32 (kgo.NodeID meta)).

Definition node_label (ev : Event) : string := node (meta_of ev).

Definition family_of (ev : Event) : family :=
  match ev with
  | BrokerConnect _ _ _ (Some _) => connect_errors_total
  | BrokerConnect _ _ _ None => connects_total
  | BrokerDisconnect _ _ => disconnects_total
  | BrokerWrite _ _ _ _ _ (Some _) => write_errors_total
  | BrokerWrite _ _ _ _ _ None => write_bytes_total
  | BrokerRead _ _ _ _ _ (Some _) => read_errors_total
  | BrokerRead _ _ _ _ _ None => read_bytes_total
  | ProduceBatchWritten _ _ _ _ => produce_bytes_total
  | FetchBatchRead _ _ _ _ => fetch_bytes_total
  end.

Definition labels_of (ev : Event) : list string :=
  match ev with
  | ProduceBatchWritten _ topic _ _ | FetchBatchRead _ topic _ _ =>
      [node_label ev; topic]
  | _ => [node_label ev]
  end.

(** The byte count a hook converts and adds, if it adds one. *)
Definition bytes_of (ev : Event) : option Z :=
  match ev with
  | BrokerWrite _ _ n _ _ None | BrokerRead _ _ n _ _ None => Some n
  | ProduceBatchWritten _ _ _ pbm =>
      Some (kgo.ProduceBatchMetrics.UncompressedBytes pbm)
  | FetchBatchRead _ _ _ fbm =>
      Some (kgo.FetchBatchMetrics.UncompressedBytes fbm)
  | _ => None
  end.

Definition amount_of (ev : Event) : Z :=
  match bytes_of ev with
  | Some n => float64 n
  | None => 1
  end.

(** Every byte count the hook receives, counted or not. *)
Definition counts_nonneg (ev : Event) : Prop :=
  match ev with
  | BrokerWrite _ _ n _ _ _ | BrokerRead _ _ n _ _ _ => 0 <= n
  | ProduceBatchWritten _ _ _ pbm =>
      0 <= kgo.ProduceBatchMetrics.UncompressedBytes pbm
  | FetchBatchRead _ _ _ fbm =>
      0 <= kgo.FetchBatchMetrics.UncompressedBytes fbm
  | _ => True
  end.

(** The hook interfaces of the client that the struct implements. *)
Inductive Hook : Type :=
| HookBrokerConnect
| HookBrokerDisconnect
| HookBrokerWrite
| HookBrokerRead
| HookProduceBatchWritten
| HookFetchBatchRead.

Definition hook_of (ev : Event) : Hook :=
  match ev with
  | BrokerConnect _ _ _ _ => HookBrokerConnect
  | BrokerDisconnect _ _ => HookBrokerDisconnect
  | BrokerWrite _ _ _ _ _ _ => HookBrokerWrite
  | BrokerRead _ _ _ _ _ _ => HookBrokerRead
  | ProduceBatchWritten _ _ _ _ => HookProduceBatchWritten
  | FetchBatchRead _ _ _ _ => HookFetchBatchRead
  end.

(** The arguments of a call, one by one. *)
Definition topic_of (ev : Event) : option string :=
  match ev with
  | ProduceBatchWritten _ topic _ _ | FetchBatchRead _ topic _ _ => Some topic
  | _ => None
  end.

Definition count_of (ev : Event) : option Z :=
  match ev with
  | BrokerWrite _ _ n _ _ _ | BrokerRead _ _ n _ _ _ => Some n
  | ProduceBatchWritten _ _ _ pbm =>
      Some (kgo.ProduceBatchMetrics.UncompressedBytes pbm)
  | FetchBatchRead _ _ _ fbm =>
      Some (kgo.FetchBatchMetrics.UncompressedBytes fbm)
  | _ => None
  end.

(** The topic of the call, if it has one, is valid UTF-8. *)
Definition topic_valid (ev : Event) : bool :=
  match topic_of ev with
  | Some topic => utf8.ValidString topic
  | None => true
  end.

Definition err_of (ev : Event) : error :=
  match ev with
  | BrokerConnect _ _ _ err | BrokerWrite _ _ _ _ _ err
  | BrokerRead _ _ _ _ _ err => err
  | _ => None
  end.

Definition is_nil (err : error) : bool :=
  match err with None => true | Some _ => false end.

(** A call of the write hook for node [x] that reports no error. *)
Definition successful_write (x : Z) (ev : Event) : Prop :=
  match ev with
  | BrokerWrite meta _ _ _ _ None => kgo.NodeID meta = x
  | _ => False
  end.

Definition sum (l : list Z) : Z := fold_right Z.add 0 l.

Definition counts (evs : list Event) : list Z :=
  map (fun ev => default 0 (count_of ev)) evs.

(** *** A concrete aggregator

    The struct [NewMetrics "kafka"] returns for a first registry, and
    a broker to send it events about. *)
Definition family_help (f : family) : string :=
  match f with
  | connects_total => "Total number of connections opened, by broker"
  | connect_errors_total => "Total number of connection errors, by broker"
  | disconnects_total => "Total number of connections closed, by broker"
  | write_errors_total => "Total number of write errors, by broker"
  | write_bytes_total => "Total number of bytes written, by broker"
  | read_errors_total => "Total number of read errors, by broker"
  | read_bytes_total => "Total number of bytes read, by broker"
  | produce_bytes_total =>
      "Total number of uncompressed bytes produced, by broker and topic"
  | fetch_bytes_total =>
      "Total number of uncompressed bytes fetched, by broker and topic"
  end.

Definition new_vec (namespace : string) (f : family) : prometheus.CounterVec :=
  prometheus.NewCounterVec
    {| prometheus.Namespace := namespace;
       prometheus.Subsystem := "";
       prometheus.Name := family_name f;
       prometheus.Help := family_help f |}
    (family_labels f).

(** The struct literal [NewMetrics] returns. *)
Definition built (c : cfg) (namespace : string) : Metrics :=
  {| Metrics_cfg := c;
     connects := new_vec namespace connects_total;
     connectErrs := new_vec namespace connect_errors_total;
     disconnects := new_vec namespace disconnects_total;
     writeErrs := new_vec namespace write_errors_total;
     writeBytes := new_vec namespace write_bytes_total;
     readErrs := new_vec namespace read_errors_total;
     readBytes := new_vec namespace read_bytes_total;
     produceBytes := new_vec namespace produce_bytes_total;
     fetchBytes := new_vec namespace fetch_bytes_total |}.

Definition kafka : Metrics :=
  built {| reg := Some 1%positive;
           handlerOpts := promhttp.zero;
           goCollectors := false |} "kafka".

(** The configuration after the option loop, starting from the
    registry [r]. *)
Definition configure (r : prometheus.ptr) (opts : list Opt) : cfg :=
  fold_left (fun c o => apply o c) opts
    {| reg := r; handlerOpts := promhttp.zero; goCollectors := false |}.

(** An option other than [Registry]. *)
Definition keeps_registry (o : Opt) : Prop :=
  o = GoCollectors \/ exists ho, o = HandlerOpts ho.

(** The name a family is registered under. *)
Definition fq (namespace : string) (f : family) : string :=
  prometheus.BuildFQName namespace "" (family_name f).

(** What [NewMetrics] registers, in order, collector by collector. *)
Definition registrations `{prometheus.Library} (c : cfg) (namespace : string)
  : list (list string) :=
  (if goCollectors c
   then [prometheus.ProcessCollectorDescs; prometheus.GoCollectorDescs]
   else [])
  ++ map (fun f => [fq namespace f]) families.

Definition broker (id : Z) : kgo.BrokerMetadata :=
  {| kgo.NodeID := id; kgo.Port := 9092;
     kgo.Host := "localhost"; kgo.Rack := None |}.

(** Batches of one record with [u] uncompressed bytes. *)
Definition produced (u : Z) : kgo.ProduceBatchMetrics.t :=
  {| kgo.ProduceBatchMetrics.NumRecords := 1;
     kgo.ProduceBatchMetrics.UncompressedBytes := u;
     kgo.ProduceBatchMetrics.CompressedBytes := 0;
     kgo.ProduceBatchMetrics.CompressionType := 0 |}.

Definition fetched (u : Z) : kgo.FetchBatchMetrics.t :=
  {| kgo.FetchBatchMetrics.NumRecords := 1;
     kgo.FetchBatchMetrics.UncompressedBytes := u;
     kgo.FetchBatchMetrics.CompressedBytes := 0;
     kgo.FetchBatchMetrics.CompressionType := 0 |}.

(** A string that is not valid UTF-8: the single byte 255. *)
Definition byte_255 : string := String (ascii_of_N 255) "".

(** *** Options as a caller writes them

    The three option constructors of the package, as data, and the
    option each one stands for. *)
Inductive Choice : Type :=
| UseRegistry (r : prometheus.ptr)
| UseGoCollectors
| UseHandlerOpts (o : promhttp.HandlerOpts).

Definition option_of (ch : Choice) : Opt :=
  match ch with
  | UseRegistry r => Registry r
  | UseGoCollectors => GoCollectors
  | UseHandlerOpts o => HandlerOpts o
  end.

Definition chosen_registry (ch : Choice) : option prometheus.ptr :=
  match ch with UseRegistry r => Some r | _ => None end.

Definition chosen_handler_opts (ch : Choice) : option promhttp.HandlerOpts :=
  match ch with UseHandlerOpts o => Some o | _ => None end.

Definition chooses_go_collectors (ch : Choice) : bool :=
  match ch with UseGoCollectors => true | _ => false end.

(** *** Runs of events *)

(** The calls that return: the topic passes the label check and the
    byte count added, if any, is not negative. *)
Definition accepted (ev : Event) : bool :=
  topic_valid ev && match bytes_of ev with
                    | Some n => 0 <=? n
                    | None => true
                    end.

(** What the call [ev] adds to family [f] at label tuple [lvs]: its
    amount if that is the tuple it updates, nothing otherwise. *)
Definition amount_at (f : family) (lvs : list string) (ev : Event) : Z :=
  if bool_decide ((family_of ev, labels_of ev) = (f, lvs))
  then amount_of ev else 0.

(** The aggregator a run leaves behind, if it returned. *)
Definition state_after (r : result (unit * Metrics)) : option Metrics :=
  match r with
  | Ok (_, m) => Some m
  | Panic _ => None
  end.

Definition int_range (n : Z) : Prop := - 2 ^ 63 <= n < 2 ^ 63.

End kprom.


(** * Properties *)

Import prometheus kprom.

(** Closed arithmetic facts, by evaluation. *)
Ltac by_eval := vm_compute; repeat split; intros; discriminate.

(** ** The state monad *)

Lemma bind_Ok_inv {S A B : Type} (c : St S A) (k : A -> St S B) s b s' :
  bind c k s = Ok (b, s') ->
  exists a s1, c s = Ok (a, s1) /\ k a s1 = Ok (b, s').
Proof.
  unfold bind. destruct (c s) as [[a s1]|msg]; [eauto | discriminate].
Qed.

Lemma bind_Ok {S A B : Type} (c : St S A) (k : A -> St S B) s a s1 :
  c s = Ok (a, s1) -> bind c k s = k a s1.
Proof. unfold bind. intros ->. reflexivity. Qed.

Lemma bind_Panic {S A B : Type} (c : St S A) (k : A -> St S B) s msg :
  c s = Panic msg -> bind c k s = Panic msg.
Proof. unfold bind. intros ->. reflexivity. Qed.

(** ** Unsigned 64-bit integers *)

Section Uint64Facts.
Implicit Types (a b : uint64) (x y z : Z).

Lemma wrap64_range z : 0 <= wrap64 z < 2 ^ 64.
Proof. apply Z.mod_pos_bound. reflexivity. Qed.

Lemma wrap64_small z : 0 <= z < 2 ^ 64 -> wrap64 z = z.
Proof. apply Z.mod_small. Qed.

Lemma u64_range a : 0 <= u64 a < 2 ^ 64.
Proof.
  pose proof (u64_wrapped a) as H. apply Z.eqb_eq in H.
  rewrite <- H. apply wrap64_range.
Qed.

(** A [uint64] is its integer: the evidence it carries is unique. *)
Lemma uint64_eq a b : u64 a = u64 b -> a = b.
Proof.
  destruct a as [x Hx], b as [y Hy]; simpl. intros ->.
  f_equal. apply proof_irrel.
Qed.

Lemma u64_AddUint64 a x : u64 (AddUint64 a x) = wrap64 (u64 a + x).
Proof. reflexivity. Qed.

Lemma AddUint64_zero a : AddUint64 a 0 = a.
Proof.
  apply uint64_eq. rewrite u64_AddUint64, Z.add_0_r.
  apply wrap64_small, u64_range.
Qed.

Lemma AddUint64_AddUint64 a x y :
  AddUint64 (AddUint64 a x) y = AddUint64 a (x + y).
Proof.
  apply uint64_eq. rewrite !u64_AddUint64. unfold wrap64.
  rewrite Z.add_mod_idemp_l by discriminate. f_equal. lia.
Qed.

Lemma AddUint64_comm a x y :
  AddUint64 (AddUint64 a x) y = AddUint64 (AddUint64 a y) x.
Proof. rewrite !AddUint64_AddUint64. f_equal. lia. Qed.

End Uint64Facts.

(** ** Counter vectors *)

Section CounterVecFacts.
Implicit Types (v : CounterVec) (lvs : list string) (x : Z).

Lemma desc_add_at lvs x v : desc (add_at lvs x v) = desc v.
Proof. reflexivity. Qed.

Lemma counter_at_add_at lvs x v :
  counter_at lvs (add_at lvs x v) = AddUint64 (counter_at lvs v) x.
Proof.
  unfold counter_at at 1, add_at, with_children; simpl.
  rewrite lookup_insert_eq. reflexivity.
Qed.

Lemma valInt_add_at lvs x v :
  valInt lvs (add_at lvs x v) = wrap64 (valInt lvs v + x).
Proof. unfold valInt. rewrite counter_at_add_at. reflexivity. Qed.

Lemma valInt_range lvs v : 0 <= valInt lvs v < 2 ^ 64.
Proof. apply u64_range. Qed.

Lemma lookup_add_at_ne lvs lvs' x v :
  lvs <> lvs' -> children (add_at lvs x v) !! lvs' = children v !! lvs'.
Proof.
  intros Hne. unfold add_at, with_children; simpl.
  apply lookup_insert_ne, Hne.
Qed.

Lemma valInt_add_at_ne lvs lvs' x v :
  lvs <> lvs' -> valInt lvs' (add_at lvs x v) = valInt lvs' v.
Proof.
  intros Hne. unfold valInt, counter_at. rewrite lookup_add_at_ne; auto.
Qed.

Lemma lookup_add_at_is_Some lvs x v :
  is_Some (children (add_at lvs x v) !! lvs).
Proof.
  unfold add_at, with_children; simpl. rewrite lookup_insert_eq. eauto.
Qed.

(** Looking a counter up and adding to it comes to [add_at],
    whether or not the tuple was there before. *)
Lemma add_after_lookup lvs x v :
  length lvs = length (variableLabels (desc v)) ->
  forallb utf8.ValidString lvs = true ->
  bind (WithLabelValues lvs) (fun c => Add c x) v =
  if x <? 0 then Panic "counter cannot decrease in value"
  else Ok (tt, add_at lvs x v).
Proof.
  intros Hlen Hutf. unfold bind, WithLabelValues, Add.
  rewrite Hlen, Nat.eqb_refl, Hutf. simpl.
  destruct (x <? 0); [reflexivity |].
  destruct (children v !! lvs) as [y|] eqn:Hl; [reflexivity |].
  unfold add_at, with_children, counter_at; simpl.
  rewrite lookup_insert_eq, Hl, insert_insert_eq. reflexivity.
Qed.

Lemma inc_after_lookup lvs v :
  length lvs = length (variableLabels (desc v)) ->
  forallb utf8.ValidString lvs = true ->
  bind (WithLabelValues lvs) (fun c => Inc c) v = Ok (tt, add_at lvs 1 v).
Proof.
  intros Hlen Hutf. unfold bind, WithLabelValues, Inc.
  rewrite Hlen, Nat.eqb_refl, Hutf. simpl.
  destruct (children v !! lvs) as [y|] eqn:Hl; [reflexivity |].
  unfold add_at, with_children, counter_at; simpl.
  rewrite lookup_insert_eq, Hl, insert_insert_eq. reflexivity.
Qed.

Lemma lookup_invalid_panic {A : Type} lvs (k : Counter -> St CounterVec A) v :
  length lvs = length (variableLabels (desc v)) ->
  forallb utf8.ValidString lvs = false ->
  bind (WithLabelValues lvs) k v = Panic "label value is not valid UTF-8".
Proof.
  intros Hlen Hutf. unfold bind, WithLabelValues.
  rewrite Hlen, Nat.eqb_refl, Hutf. reflexivity.
Qed.
End CounterVecFacts.

(** ** The conversion to float64 *)

Section Float64Facts.

Lemma float64_exact n : - 2 ^ 53 <= n <= 2 ^ 53 -> float64 n = n.
Proof.
  intros Hn. unfold float64.
  destruct (Z.eq_dec (Z.abs n) (2 ^ 53)) as [Heq | Hne].
  - assert (n = 2 ^ 53 \/ n = - 2 ^ 53) as [-> | ->] by lia; reflexivity.
  - destruct (Z.eq_dec n 0) as [-> | Hnz]; [reflexivity |].
    assert (Hlog : Z.log2 (Z.abs n) < 53)
      by (apply Z.log2_lt_pow2; lia).
    destruct (Z.leb_spec (Z.log2 (Z.abs n) - 52) 0); [reflexivity | lia].
Qed.

Lemma float64_sign n :
  (0 <= n -> 0 <= float64 n) /\ (n < 0 -> float64 n < 0).
Proof.
  unfold float64.
  set (a := Z.abs n). set (e := Z.log2 a - 52).
  destruct (Z.leb_spec e 0) as [He | He]; [lia |].
  set (q := Z.shiftr a e).
  match goal with
  | |- context [if ?b then q + 1 else q] =>
      set (q' := if b then q + 1 else q)
  end.
  assert (Ha : 0 < a).
  { pose proof (Z.abs_nonneg n) as Hnn. fold a in Hnn.
    destruct (Z.eq_dec a 0) as [E | Hne]; [| lia].
    unfold e in He. rewrite E in He. simpl in He. lia. }
  assert (Hq : 0 < q).
  { unfold q. rewrite Z.shiftr_div_pow2 by lia.
    apply Z.div_str_pos. split; [apply Z.pow_pos_nonneg; lia |].
    transitivity (2 ^ Z.log2 a).
    - apply Z.pow_le_mono_r; lia.
    - apply Z.log2_spec; lia. }
  assert (Hq' : 0 < q')
    by (unfold q'; match goal with |- context [if ?b then _ else _] => destruct b end; lia).
  assert (Hs : 0 < Z.shiftl q' e).
  { rewrite Z.shiftl_mul_pow2 by lia.
    apply Z.mul_pos_pos; [lia | apply Z.pow_pos_nonneg; lia]. }
  split; intros Hn.
  - assert (Z.sgn n = 1) as -> by (apply Z.sgn_pos; lia). lia.
  - assert (Z.sgn n = -1) as -> by (apply Z.sgn_neg; lia). lia.
Qed.

Lemma float64_ltb_0 n : (float64 n <? 0) = (n <? 0).
Proof.
  destruct (float64_sign n) as [Hp Hn].
  destruct (Z.ltb_spec n 0); [apply Z.ltb_lt | apply Z.ltb_ge]; auto.
Qed.

(** The double of a positive integer above 2^53, spelled out: the
    significand [q] or its successor, times the unit in the last
    place. *)
Lemma float64_large a :
  0 < a -> 0 < Z.log2 a - 52 ->
  let e := Z.log2 a - 52 in
  let q := a / 2 ^ e in
  let r := a - q * 2 ^ e in
  float64 a =
  (if (2 ^ (e - 1) <? r) || ((r =? 2 ^ (e - 1)) && Z.odd q) then q + 1 else q)
  * 2 ^ e
  /\ 2 ^ 52 <= q < 2 ^ 53 /\ 0 <= r < 2 ^ e.
Proof.
  intros Ha He e q r. split; [| split].
  - unfold float64. rewrite Z.abs_eq by lia. fold e.
    destruct (Z.leb_spec e 0) as [H0 | _]; [lia |].
    rewrite Z.sgn_pos by lia.
    rewrite !Z.shiftr_div_pow2, !Z.shiftl_mul_pow2 by lia.
    fold q. fold r. rewrite !Z.mul_1_l. lia.
  - destruct (Z.log2_spec a Ha) as [Hlo Hhi].
    assert (Hp : 0 < 2 ^ e) by (apply Z.pow_pos_nonneg; lia).
    replace (Z.log2 a) with (52 + e) in Hlo by (unfold e; lia).
    replace (Z.succ (Z.log2 a)) with (53 + e) in Hhi by (unfold e; lia).
    rewrite Z.pow_add_r in Hlo, Hhi by lia.
    split.
    + apply Z.div_le_lower_bound; lia.
    + apply Z.div_lt_upper_bound; lia.
  - assert (Hp : 0 < 2 ^ e) by (apply Z.pow_pos_nonneg; lia).
    pose proof (Z.mod_pos_bound a (2 ^ e) Hp) as Hm.
    unfold r, q. rewrite Z.mod_eq in Hm by lia. lia.
Qed.

Lemma float64_between a :
  0 < a -> 2 ^ Z.log2 a <= float64 a <= 2 ^ (Z.log2 a + 1).
Proof.
  intros Ha. destruct (Z.log2_spec a Ha) as [Hlo Hhi].
  replace (Z.succ (Z.log2 a)) with (Z.log2 a + 1) in Hhi by lia.
  destruct (Z_le_gt_dec (Z.log2 a - 52) 0) as [He | He].
  - unfold float64. rewrite Z.abs_eq by lia.
    destruct (Z.leb_spec (Z.log2 a - 52) 0); lia.
  - destruct (float64_large a Ha ltac:(lia)) as (-> & Hq & Hr).
    set (e := Z.log2 a - 52) in *. set (q := a / 2 ^ e) in *.
    assert (Hp : 0 < 2 ^ e) by (apply Z.pow_pos_nonneg; lia).
    replace (Z.log2 a + 1) with (53 + e) by (unfold e; lia).
    replace (Z.log2 a) with (52 + e) at 1 by (unfold e; lia).
    rewrite !Z.pow_add_r by lia.
    match goal with |- context [if ?b then _ else _] => destruct b end; nia.
Qed.

Lemma float64_nonneg a : 0 <= a -> 0 <= float64 a.
Proof.
  intros Ha. destruct (Z.eq_dec a 0) as [-> | Hne]; [vm_compute; discriminate |].
  pose proof (float64_between a ltac:(lia)) as [Hlo _].
  pose proof (Z.pow_nonneg 2 (Z.log2 a) ltac:(lia)). lia.
Qed.

(** Rounding keeps the order. *)
Lemma float64_mono a b : 0 <= a <= b -> float64 a <= float64 b.
Proof.
  intros [Ha Hab].
  destruct (Z.eq_dec a 0) as [-> | Hne].
  { change (float64 0) with 0. apply float64_nonneg; lia. }
  assert (Hapos : 0 < a) by lia. assert (Hbpos : 0 < b) by lia.
  pose proof (Z.log2_le_mono a b Hab) as Hlog.
  destruct (Z.eq_dec (Z.log2 a) (Z.log2 b)) as [Heq | Hlt].
  - destruct (Z_le_gt_dec (Z.log2 a - 52) 0) as [He | He].
    + unfold float64. rewrite !Z.abs_eq by lia. rewrite <- Heq.
      destruct (Z.leb_spec (Z.log2 a - 52) 0); lia.
    + destruct (float64_large a Hapos ltac:(lia)) as (-> & Hqa & Hra).
      destruct (float64_large b Hbpos ltac:(lia)) as (-> & Hqb & Hrb).
      rewrite <- Heq in *.
      set (e := Z.log2 a - 52) in *.
      assert (Hp : 0 < 2 ^ e) by (apply Z.pow_pos_nonneg; lia).
      set (qa := a / 2 ^ e) in *. set (qb := b / 2 ^ e) in *.
      assert (Hq : qa <= qb) by (apply Z.div_le_mono; lia).
      apply Z.mul_le_mono_nonneg_r; [lia |].
      destruct (Z.eq_dec qa qb) as [E | Hneq].
      * rewrite <- E in *.
        destruct (Z.ltb_spec (2 ^ (e - 1)) (a - qa * 2 ^ e)) as [H1 | H1];
          destruct (Z.ltb_spec (2 ^ (e - 1)) (b - qa * 2 ^ e)) as [H2 | H2];
          cbn [orb]; try lia.
        -- destruct ((a - qa * 2 ^ e =? 2 ^ (e - 1)) && Z.odd qa); lia.
        -- destruct (Z.eqb_spec (a - qa * 2 ^ e) (2 ^ (e - 1))) as [E1 | E1];
             destruct (Z.eqb_spec (b - qa * 2 ^ e) (2 ^ (e - 1))) as [E2 | E2];
             cbn [andb]; try lia; destruct (Z.odd qa); lia.
      * do 2 match goal with |- context [if ?c then _ else _] => destruct c end; lia.
  - transitivity (2 ^ (Z.log2 a + 1)); [apply float64_between; lia |].
    transitivity (2 ^ Z.log2 b); [| apply float64_between; lia].
    apply Z.pow_le_mono_r; lia.
Qed.

Lemma float64_above a : 2 ^ 53 <= a -> 2 ^ 53 <= float64 a.
Proof.
  intros Ha.
  assert (Hpos : 0 < a) by (pose proof (Z.pow_pos_nonneg 2 53); lia).
  transitivity (2 ^ Z.log2 a); [| apply float64_between; lia].
  apply Z.pow_le_mono_r; [lia |].
  apply Z.log2_le_pow2; lia.
Qed.

(** Adding to a total: while the reported value stays within 2^53 the
    report moves by the amount, ... *)
Lemma float64_add_exact a x :
  0 <= a < 2 ^ 64 -> 0 <= x -> float64 a + x <= 2 ^ 53 ->
  float64 (wrap64 (a + x)) = float64 a + x.
Proof.
  intros Ha Hx Hsum.
  destruct (Z_le_gt_dec a (2 ^ 53)) as [Hsmall | Hbig].
  - rewrite (float64_exact a) in * by lia.
    rewrite wrap64_small.
    + apply float64_exact. lia.
    + change (2 ^ 53) with 9007199254740992 in *.
      change (2 ^ 64) with 18446744073709551616 in *. lia.
  - pose proof (float64_above a ltac:(lia)) as Habove.
    assert (x = 0) as -> by lia.
    rewrite !Z.add_0_r, wrap64_small by lia. reflexivity.
Qed.

(** ... and while the total does not wrap around the report does not
    go down. *)
Lemma float64_add_le a x :
  0 <= a -> 0 <= x -> a + x < 2 ^ 64 ->
  float64 a <= float64 (wrap64 (a + x)).
Proof.
  intros Ha Hx Hsum. rewrite wrap64_small by lia.
  apply float64_mono. lia.
Qed.

End Float64Facts.


(** ** The decimal printer *)

Section ItoaFacts.
Import strconv.

Ltac each_digit d :=
  let H := fresh in
  assert (H : d = 0 \/ d = 1 \/ d = 2 \/ d = 3 \/ d = 4 \/
              d = 5 \/ d = 6 \/ d = 7 \/ d = 8 \/ d = 9) by lia;
  repeat (destruct H as [H | H]; [subst d |]); [.. | subst d].

Lemma digit_value_digit d : 0 <= d <= 9 -> digit_value (digit d) = Some d.
Proof. intros Hd. each_digit d; reflexivity. Qed.

(** With fuel for every binary digit of [u], the loop prints a
    string that reads back as [u]. *)
Lemma parse_formatBits fuel u buf :
  0 <= u < 2 ^ Z.of_nat fuel ->
  parse_digits (formatBits fuel u buf) 0 = parse_digits buf u.
Proof.
  revert u buf. induction fuel as [| fuel IH]; intros u buf Hu.
  - simpl in *. assert (u = 0) as -> by lia. reflexivity.
  - simpl formatBits. destruct (Z.ltb_spec u 10) as [Hlt | Hge].
    + simpl. rewrite digit_value_digit by lia. reflexivity.
    + rewrite IH.
      * simpl. rewrite digit_value_digit
          by (pose proof (Z.mod_pos_bound u 10); lia).
        f_equal. pose proof (Z.div_mod u 10). lia.
      * rewrite Nat2Z.inj_succ, Z.pow_succ_r in Hu by lia.
        split; [apply Z.div_pos; lia |].
        apply Z.div_lt_upper_bound; lia.
Qed.

(** The first character printed is the leading digit, and it is 0 only
    when the number is. *)
Lemma formatBits_head fuel u buf :
  0 <= u < 2 ^ Z.of_nat fuel -> (0 < fuel)%nat ->
  exists d rest,
    formatBits fuel u buf = String (digit d) rest /\
    0 <= d <= 9 /\ (d = 0 -> u = 0 /\ rest = buf).
Proof.
  revert u buf. induction fuel as [| fuel IH]; intros u buf Hu Hfuel; [lia |].
  simpl formatBits. destruct (Z.ltb_spec u 10) as [Hlt | Hge].
  - exists u, buf. repeat split; lia || auto.
  - rewrite Nat2Z.inj_succ, Z.pow_succ_r in Hu by lia.
    assert (Hq : 1 <= u / 10) by (apply Z.div_le_lower_bound; lia).
    destruct (IH (u / 10) (String (digit (u mod 10)) buf))
      as (d & rest & Heq & Hd & Hz).
    + split; [lia |]. apply Z.div_lt_upper_bound; lia.
    + destruct fuel; [simpl in Hu; lia | lia].
    + exists d, rest. repeat split; try lia; try assumption;
        intros ->; destruct (Hz eq_refl); lia.
Qed.

Lemma enough_fuel u :
  0 <= u -> 0 <= u < 2 ^ Z.of_nat (S (Z.to_nat (Z.log2 u))).
Proof.
  intros Hu. split; [assumption |].
  rewrite Nat2Z.inj_succ, Z2Nat.id by apply Z.log2_nonneg.
  destruct (Z.eq_dec u 0) as [-> | Hnz]; [reflexivity |].
  apply Z.log2_spec. lia.
Qed.

Lemma not_minus_digit d rest :
  0 <= d <= 9 -> Atoi (String (digit d) rest) = parse_unsigned (String (digit d) rest).
Proof. intros Hd. each_digit d; reflexivity. Qed.

Lemma canonical_digit d rest :
  0 <= d <= 9 -> (d = 0 -> rest = "") ->
  canonical (String (digit d) rest) = true.
Proof.
  intros Hd Hz. each_digit d; try reflexivity.
  rewrite Hz by reflexivity. reflexivity.
Qed.

Lemma canonical_minus_digit d rest :
  1 <= d <= 9 -> canonical (String "-" (String (digit d) rest)) = true.
Proof. intros Hd. each_digit d; try lia; reflexivity. Qed.

Lemma Atoi_Itoa n : Atoi (Itoa n) = Some n.
Proof.
  unfold Itoa, FormatInt.
  pose proof (enough_fuel (Z.abs n) (Z.abs_nonneg n)) as Hfuel.
  destruct (formatBits_head _ (Z.abs n) "" Hfuel) as (d & rest & Heq & Hd & Hz);
    [lia |].
  pose proof (parse_formatBits _ (Z.abs n) "" Hfuel) as Hparse.
  rewrite Heq in *. simpl parse_digits at 2 in Hparse.
  destruct (Z.ltb_spec n 0) as [Hneg | Hpos].
  - change (Atoi (String "-" (String (digit d) rest)))
      with (Z.opp <$> parse_unsigned (String (digit d) rest)).
    unfold parse_unsigned. rewrite Hparse. simpl. f_equal. lia.
  - rewrite not_minus_digit by assumption.
    unfold parse_unsigned. rewrite Hparse. f_equal. lia.
Qed.

Lemma canonical_Itoa n : canonical (Itoa n) = true.
Proof.
  unfold Itoa, FormatInt.
  pose proof (enough_fuel (Z.abs n) (Z.abs_nonneg n)) as Hfuel.
  destruct (formatBits_head _ (Z.abs n) "" Hfuel) as (d & rest & Heq & Hd & Hz);
    [lia |].
  rewrite Heq.
  destruct (Z.ltb_spec n 0) as [Hneg | Hpos].
  - apply canonical_minus_digit.
    destruct (Z.eq_dec d 0) as [-> | Hnz]; [destruct (Hz eq_refl); lia | lia].
  - apply canonical_digit; [assumption |].
    intros E. apply Hz, E.
Qed.

Lemma Itoa_sign n :
  (n < 0 <-> exists s, Itoa n = String "-" s).
Proof.
  unfold Itoa, FormatInt.
  pose proof (enough_fuel (Z.abs n) (Z.abs_nonneg n)) as Hfuel.
  destruct (formatBits_head _ (Z.abs n) "" Hfuel) as (d & rest & Heq & Hd & Hz);
    [lia |].
  rewrite Heq.
  destruct (Z.ltb_spec n 0) as [Hneg | Hpos].
  - split; [eauto | intros _; assumption].
  - split; [lia |]. intros [s Hs]. exfalso.
    injection Hs as Hc _. revert Hc. clear -Hd.
    each_digit d; discriminate.
Qed.

Lemma Itoa_inj a b : Itoa a = Itoa b -> a = b.
Proof.
  intros Heq. pose proof (Atoi_Itoa a) as Ha.
  rewrite Heq, Atoi_Itoa in Ha. congruence.
Qed.

(** *** The label is ASCII, hence valid UTF-8 *)

Lemma ValidString_ascii s :
  all_chars (fun c => (N_of_ascii c <? 128)%N) s = true ->
  utf8.ValidString s = true.
Proof.
  induction s as [| c s IH]; intros Hall; [reflexivity |].
  cbn [all_chars] in Hall. apply andb_prop in Hall as [Hc Hs].
  cbn [utf8.ValidString]. rewrite Hc. apply IH, Hs.
Qed.

Lemma digit_ascii d : 0 <= d <= 9 -> (N_of_ascii (digit d) <? 128)%N = true.
Proof. intros Hd. each_digit d; reflexivity. Qed.

Lemma formatBits_ascii fuel u buf :
  0 <= u ->
  all_chars (fun c => (N_of_ascii c <? 128)%N) buf = true ->
  all_chars (fun c => (N_of_ascii c <? 128)%N) (formatBits fuel u buf) = true.
Proof.
  revert u buf. induction fuel as [| fuel IH]; intros u buf Hu Hbuf;
    [exact Hbuf |].
  simpl formatBits. destruct (Z.ltb_spec u 10) as [Hlt | Hge].
  - cbn [all_chars]. rewrite digit_ascii by lia. exact Hbuf.
  - apply IH; [apply Z.div_pos; lia |].
    cbn [all_chars]. rewrite digit_ascii
      by (pose proof (Z.mod_pos_bound u 10); lia).
    exact Hbuf.
Qed.

Lemma Itoa_valid n : utf8.ValidString (Itoa n) = true.
Proof.
  apply ValidString_ascii. unfold Itoa, FormatInt.
  assert (Ha : all_chars (fun c => (N_of_ascii c <? 128)%N)
                 (formatBits (S (Z.to_nat (Z.log2 (Z.abs n)))) (Z.abs n) "")
               = true)
    by (apply formatBits_ascii; [apply Z.abs_nonneg | reflexivity]).
  destruct (n <? 0); [cbn [all_chars]; rewrite Ha; reflexivity | exact Ha].
Qed.

(** *** The canonical decimal of a number is unique *)

Lemma string_snoc s :
  s = "" \/ exists s' c, s = s' +:+ String c "" /\ (String.length s' < String.length s)%nat.
Proof.
  induction s as [| a s IH]; [left; reflexivity | right].
  destruct IH as [-> | (s' & c & -> & Hlen)].
  - exists "", a. split; [reflexivity | simpl; lia].
  - exists (String a s'), c. split; [reflexivity |].
    change (S (String.length s') < S (String.length (s' +:+ String c "")))%nat.
    lia.
Qed.

Lemma string_rev_ind (P : string -> Prop) :
  P "" -> (forall s c, P s -> P (s +:+ String c "")) -> forall s, P s.
Proof.
  intros Hnil Hsnoc s.
  remember (String.length s) as n eqn:Hn. revert s Hn.
  induction n as [n IH] using lt_wf_ind. intros s Hn.
  destruct (string_snoc s) as [-> | (s' & c & -> & Hlen)]; [exact Hnil |].
  apply Hsnoc. apply (IH (String.length s')); [lia | reflexivity].
Qed.

Lemma app_String a s t : String a s +:+ t = String a (s +:+ t).
Proof. reflexivity. Qed.

Lemma app_snoc s c t : (s +:+ String c "") +:+ t = s +:+ String c t.
Proof.
  induction s as [| a s IH]; [reflexivity |].
  rewrite !app_String, IH. reflexivity.
Qed.

Lemma parse_digits_app s t acc :
  parse_digits (s +:+ t) acc
  = match parse_digits s acc with
    | Some v => parse_digits t v
    | None => None
    end.
Proof.
  revert acc. induction s as [| a s IH]; intros acc; [reflexivity |].
  rewrite app_String. cbn [parse_digits].
  destruct (digit_value a); [apply IH | reflexivity].
Qed.

Lemma digit_value_inv c d : digit_value c = Some d -> 0 <= d <= 9 /\ c = digit d.
Proof.
  unfold digit_value.
  destruct (Z.leb_spec 48 (Z.of_N (N_of_ascii c))) as [H1 | H1];
    destruct (Z.leb_spec (Z.of_N (N_of_ascii c)) 57) as [H2 | H2];
    simpl; try discriminate.
  intros [= <-]. split; [lia |].
  unfold digit. replace (48 + Z.to_N (Z.of_N (N_of_ascii c) - 48))%N
    with (N_of_ascii c) by lia.
  symmetry. apply ascii_N_embedding.
Qed.

Lemma parse_digits_ge s acc v : 0 <= acc -> parse_digits s acc = Some v -> acc <= v.
Proof.
  revert acc. induction s as [| a s IH]; intros acc Hacc; cbn [parse_digits].
  - intros [= <-]. lia.
  - destruct (digit_value a) as [d|] eqn:Hd; [| discriminate].
    apply digit_value_inv in Hd as [Hd _]. intros Hp.
    apply IH in Hp; lia.
Qed.

(** A canonical string of two or more digits starts with a digit other
    than 0, and so does the string without its last digit. *)
Lemma canonical_unsigned_snoc a s c :
  canonical_unsigned (String a s +:+ String c "") = true ->
  a <> "0"%char /\ canonical_unsigned (String a s) = true.
Proof.
  rewrite app_String.
  destruct (ascii_dec a "0") as [-> | Hne].
  - destruct s; discriminate.
  - intros _. split; [exact Hne |].
    destruct a as [[] [] [] [] [] [] [] []]; try reflexivity.
    congruence.
Qed.

Lemma parse_leading_nonzero a s v :
  a <> "0"%char -> parse_digits (String a s) 0 = Some v -> 1 <= v.
Proof.
  intros Hne. cbn [parse_digits].
  destruct (digit_value a) as [d|] eqn:Hd; [| discriminate].
  apply digit_value_inv in Hd as [Hd ->]. intros Hp.
  apply parse_digits_ge in Hp; [| lia].
  assert (d <> 0) by (intros ->; apply Hne; reflexivity). lia.
Qed.

(** Printing undoes reading on canonical digit strings. *)
Lemma formatBits_parse s :
  forall u buf fuel,
    canonical_unsigned s = true -> parse_digits s 0 = Some u ->
    (0 < fuel)%nat -> u < 2 ^ Z.of_nat fuel ->
    formatBits fuel u buf = s +:+ buf.
Proof.
  induction s as [| s c IH] using string_rev_ind;
    intros u buf fuel Hcan Hparse Hfuel Hu; [discriminate |].
  rewrite parse_digits_app in Hparse.
  destruct (parse_digits s 0) as [u'|] eqn:Hs; [| discriminate].
  cbn [parse_digits] in Hparse.
  destruct (digit_value c) as [d|] eqn:Hd; [| discriminate].
  injection Hparse as <-.
  apply digit_value_inv in Hd as [Hd ->].
  destruct fuel as [| fuel]; [lia |]. simpl formatBits.
  destruct s as [| a s].
  - injection Hs as <-.
    destruct (Z.ltb_spec (10 * 0 + d) 10); [| lia].
    replace (10 * 0 + d) with d by lia. reflexivity.
  - apply canonical_unsigned_snoc in Hcan as [Hne Hcan].
    pose proof (parse_leading_nonzero a s u' Hne Hs) as Hu'.
    destruct (Z.ltb_spec (10 * u' + d) 10); [lia |].
    replace ((10 * u' + d) / 10) with u'
      by (apply Z.div_unique with d; lia).
    replace ((10 * u' + d) mod 10) with d
      by (apply Z.mod_unique with u'; lia).
    rewrite Nat2Z.inj_succ, Z.pow_succ_r in Hu by lia.
    rewrite (IH u' _ fuel Hcan eq_refl).
    + apply eq_sym, app_snoc.
    + destruct fuel; [simpl in Hu; lia | lia].
    + lia.
Qed.

Lemma Atoi_not_minus c s :
  c <> "-"%char -> Atoi (String c s) = parse_unsigned (String c s).
Proof.
  intros Hne. destruct c as [[] [] [] [] [] [] [] []]; try reflexivity.
  congruence.
Qed.

Lemma canonical_not_minus c s :
  c <> "-"%char -> canonical (String c s) = canonical_unsigned (String c s).
Proof.
  intros Hne. destruct c as [[] [] [] [] [] [] [] []]; try reflexivity.
  congruence.
Qed.

Lemma app_empty_r s : s +:+ "" = s.
Proof.
  induction s as [| a s IH]; [reflexivity |].
  rewrite app_String, IH. reflexivity.
Qed.

Lemma Itoa_unique s n : canonical s = true -> Atoi s = Some n -> s = Itoa n.
Proof.
  intros Hcan Hparse. unfold Itoa, FormatInt.
  pose proof (enough_fuel (Z.abs n) (Z.abs_nonneg n)) as Hfuel.
  destruct s as [| c s]; [discriminate |].
  destruct (ascii_dec c "-") as [-> | Hne].
  - change (canonical_unsigned s && negb (String.eqb s "0") = true) in Hcan.
    apply andb_prop in Hcan as [Hcan Hnz].
    change (Z.opp <$> parse_unsigned s = Some n) in Hparse.
    destruct s as [| a s]; [discriminate |].
    unfold parse_unsigned in Hparse.
    destruct (parse_digits (String a s) 0) as [u|] eqn:Hu; [| discriminate].
    injection Hparse as <-.
    assert (Hpos : 1 <= u).
    { apply (parse_leading_nonzero a s); [| exact Hu].
      intros ->. destruct s; discriminate. }
    destruct (Z.ltb_spec (- u) 0); [| lia].
    replace (Z.abs (- u)) with u in * by lia.
    rewrite (formatBits_parse (String a s) u "" _ Hcan Hu);
      [rewrite app_empty_r; reflexivity | lia | apply Hfuel].
  - rewrite canonical_not_minus in Hcan by assumption.
    rewrite Atoi_not_minus in Hparse by assumption.
    unfold parse_unsigned in Hparse.
    pose proof (parse_digits_ge _ _ _ (Z.le_refl 0) Hparse) as Hn.
    destruct (Z.ltb_spec n 0); [lia |].
    replace (Z.abs n) with n in * by lia.
    rewrite (formatBits_parse (String c s) n "" _ Hcan Hparse);
      [rewrite app_empty_r; reflexivity | lia | apply Hfuel].
Qed.

End ItoaFacts.

(** ** The fields of the struct *)

Section MetricsFacts.
Implicit Types (m : Metrics) (f : family) (v : CounterVec).

Lemma families_complete f : In f families.
Proof. destruct f; simpl; tauto. Qed.

Lemma NoDup_families : NoDup families.
Proof.
  apply NoDup_ListNoDup. unfold families.
  repeat constructor; simpl; intuition discriminate.
Qed.

Lemma vec_set_vec f v m : vec f (set_vec f v m) = v.
Proof. destruct f; reflexivity. Qed.

Lemma vec_set_vec_ne f f' v m : f <> f' -> vec f' (set_vec f v m) = vec f' m.
Proof. intros Hne. destruct f, f'; try reflexivity; congruence. Qed.

Lemma Metrics_ext m m' :
  Metrics_cfg m = Metrics_cfg m' -> (forall f, vec f m = vec f m') -> m = m'.
Proof.
  intros Hcfg Hvec. destruct m, m'; simpl in *. subst.
  pose proof (Hvec connects_total). pose proof (Hvec connect_errors_total).
  pose proof (Hvec disconnects_total). pose proof (Hvec write_errors_total).
  pose proof (Hvec write_bytes_total). pose proof (Hvec read_errors_total).
  pose proof (Hvec read_bytes_total). pose proof (Hvec produce_bytes_total).
  pose proof (Hvec fetch_bytes_total). simpl in *. congruence.
Qed.

Lemma total_range f lvs m : 0 <= total f lvs m < 2 ^ 64.
Proof. apply valInt_range. Qed.

Lemma value_nonneg f lvs m : 0 <= value f lvs m.
Proof. apply float64_nonneg, total_range. Qed.

Lemma total_update f lvs x m :
  total f lvs (update f lvs x m) = wrap64 (total f lvs m + x).
Proof.
  unfold total, update. rewrite vec_set_vec. apply valInt_add_at.
Qed.

Lemma value_update f lvs x m :
  value f lvs (update f lvs x m) = float64 (wrap64 (total f lvs m + x)).
Proof.
  change (value f lvs (update f lvs x m))
    with (float64 (total f lvs (update f lvs x m))).
  rewrite total_update. reflexivity.
Qed.

(** While the value stays within 2^53, what is added shows exactly. *)
Lemma value_update_exact f lvs x m :
  0 <= x -> value f lvs m + x <= 2 ^ 53 ->
  value f lvs (update f lvs x m) = value f lvs m + x.
Proof.
  intros Hx Hsum. rewrite value_update.
  apply float64_add_exact; [apply total_range | exact Hx | exact Hsum].
Qed.

Lemma vec_update_ne f f' lvs x m :
  f <> f' -> vec f' (update f lvs x m) = vec f' m.
Proof. apply vec_set_vec_ne. Qed.

Lemma lookup_update_ne f lvs f' lvs' x m :
  (f, lvs) <> (f', lvs') ->
  children (vec f' (update f lvs x m)) !! lvs' = children (vec f' m) !! lvs'.
Proof.
  intros Hne. unfold update.
  destruct (decide (f = f')) as [<- | Hf].
  - rewrite vec_set_vec. apply lookup_add_at_ne. congruence.
  - rewrite vec_set_vec_ne by assumption. reflexivity.
Qed.

Lemma total_update_ne f lvs f' lvs' x m :
  (f, lvs) <> (f', lvs') ->
  total f' lvs' (update f lvs x m) = total f' lvs' m.
Proof.
  intros Hne. unfold total, valInt, counter_at.
  rewrite lookup_update_ne; auto.
Qed.

Lemma value_update_ne f lvs f' lvs' x m :
  (f, lvs) <> (f', lvs') ->
  value f' lvs' (update f lvs x m) = value f' lvs' m.
Proof.
  intros Hne. unfold value, value_of, valInt, counter_at.
  rewrite lookup_update_ne; auto.
Qed.

(** While the total does not wrap around, no total goes down, ... *)
Lemma total_update_le f lvs f' lvs' x m :
  0 <= x -> total f lvs m + x < 2 ^ 64 ->
  total f' lvs' m <= total f' lvs' (update f lvs x m).
Proof.
  intros Hx Hsum. destruct (decide ((f, lvs) = (f', lvs'))) as [E | Hne].
  - inversion E; subst. rewrite total_update.
    pose proof (total_range f' lvs' m) as Hr.
    rewrite wrap64_small by lia. lia.
  - rewrite total_update_ne by assumption. lia.
Qed.

(** ... and no value. *)
Lemma value_update_le f lvs f' lvs' x m :
  0 <= x -> total f lvs m + x < 2 ^ 64 ->
  value f' lvs' m <= value f' lvs' (update f lvs x m).
Proof.
  intros Hx Hsum. destruct (decide ((f, lvs) = (f', lvs'))) as [E | Hne].
  - inversion E; subst. rewrite value_update.
    apply float64_add_le; [apply total_range | exact Hx | exact Hsum].
  - rewrite value_update_ne by assumption. lia.
Qed.

Lemma wf_update f lvs x m : wf m -> wf (update f lvs x m).
Proof.
  intros Hwf f'. unfold update.
  destruct (decide (f = f')) as [<- | Hf].
  - rewrite vec_set_vec, desc_add_at. apply Hwf.
  - rewrite vec_set_vec_ne by assumption. apply Hwf.
Qed.

Lemma vec_built c namespace f : vec f (built c namespace) = new_vec namespace f.
Proof. destruct f; reflexivity. Qed.

Lemma wf_built c namespace : wf (built c namespace).
Proof. intros f; destruct f; reflexivity. Qed.

Lemma wf_kafka : wf kafka.
Proof. apply wf_built. Qed.

(** *** One hook call *)

Lemma labels_of_arity ev :
  length (labels_of ev) = length (family_labels (family_of ev)).
Proof.
  destruct ev as [? ? ? [?|] | | ? ? ? ? ? [?|] | ? ? ? ? ? [?|] | |];
    reflexivity.
Qed.

(** The node label always passes the UTF-8 check; the topic decides. *)
Lemma labels_valid ev :
  forallb utf8.ValidString (labels_of ev) = topic_valid ev.
Proof.
  destruct ev as [? ? ? [?|] | | ? ? ? ? ? [?|] | ? ? ? ? ? [?|] | |];
    cbn [labels_of forallb topic_valid topic_of];
    unfold node_label, node; rewrite Itoa_valid;
    rewrite ?andb_true_r; reflexivity.
Qed.

(** Each hook is one lookup and one addition on one vector. *)
Lemma handle_spec ev m :
  wf m ->
  handle ev m =
  if negb (topic_valid ev) then Panic "label value is not valid UTF-8"
  else if amount_of ev <? 0 then Panic "counter cannot decrease in value"
  else Ok (tt, update (family_of ev) (labels_of ev) (amount_of ev) m).
Proof.
  intros Hwf.
  assert (Hlen : length (labels_of ev)
                 = length (variableLabels (desc (vec (family_of ev) m))))
    by (rewrite Hwf; apply labels_of_arity).
  pose proof (labels_valid ev) as Hutf.
  destruct (topic_valid ev) eqn:Hvalid; cbn [negb].
  - destruct ev as [meta d conn [e|] | meta conn | meta key n w t [e|]
                   | meta key n w t [e|] | meta topic p pbm | meta topic p fbm];
      cbv [labels_of family_of node_label node meta_of] in Hlen, Hutf;
      cbn [handle]; unfold OnBrokerConnect, OnBrokerDisconnect, OnBrokerWrite,
               OnBrokerRead, OnProduceBatchWritten, OnFetchBatchRead, on;
      first [ rewrite (inc_after_lookup _ _ Hlen Hutf)
            | rewrite (add_after_lookup _ _ _ Hlen Hutf) ];
      unfold amount_of; cbn [bytes_of]; try reflexivity;
      destruct (float64 _ <? 0); reflexivity.
  - destruct ev as [meta d conn [e|] | meta conn | meta key n w t [e|]
                   | meta key n w t [e|] | meta topic p pbm | meta topic p fbm];
      try discriminate Hvalid;
      cbv [labels_of family_of node_label node meta_of] in Hlen, Hutf;
      cbn [handle]; unfold OnProduceBatchWritten, OnFetchBatchRead, on;
      rewrite (lookup_invalid_panic _ _ _ Hlen Hutf); reflexivity.
Qed.

Lemma handle_Ok ev m :
  wf m -> topic_valid ev = true -> 0 <= amount_of ev ->
  handle ev m = Ok (tt, update (family_of ev) (labels_of ev) (amount_of ev) m).
Proof.
  intros Hwf Hvalid Hx. rewrite handle_spec, Hvalid by assumption.
  destruct (Z.ltb_spec (amount_of ev) 0); [lia | reflexivity].
Qed.

Lemma handle_Ok_inv ev m m' :
  wf m -> handle ev m = Ok (tt, m') ->
  topic_valid ev = true /\ 0 <= amount_of ev /\
  m' = update (family_of ev) (labels_of ev) (amount_of ev) m.
Proof.
  intros Hwf. rewrite handle_spec by assumption.
  destruct (topic_valid ev); [| discriminate].
  destruct (Z.ltb_spec (amount_of ev) 0); [discriminate |].
  intros [= <-]. auto.
Qed.

Lemma amount_of_nonneg ev : counts_nonneg ev -> 0 <= amount_of ev.
Proof.
  unfold amount_of.
  destruct ev as [? ? ? [?|] | | ? ? ? ? ? [?|] | ? ? ? ? ? [?|] | |];
    simpl; intros Hn; try lia; apply float64_sign; assumption.
Qed.

(** What a returning hook leaves behind, in one place: the total it
    adds to, wrapped around; the value, exact while it stays within
    2^53; every other tuple as it was. *)
Lemma handle_effect ev m :
  wf m -> topic_valid ev = true -> 0 <= amount_of ev ->
  exists m',
    handle ev m = Ok (tt, m') /\ wf m' /\
    Metrics_cfg m' = Metrics_cfg m /\
    total (family_of ev) (labels_of ev) m'
    = wrap64 (total (family_of ev) (labels_of ev) m + amount_of ev) /\
    (value (family_of ev) (labels_of ev) m + amount_of ev <= 2 ^ 53 ->
     value (family_of ev) (labels_of ev) m'
     = value (family_of ev) (labels_of ev) m + amount_of ev) /\
    forall f lvs, (f, lvs) <> (family_of ev, labels_of ev) ->
                  value f lvs m' = value f lvs m.
Proof.
  intros Hwf Hvalid Hx. rewrite handle_Ok by assumption.
  eexists; split; [reflexivity |].
  split; [apply wf_update, Hwf |].
  split; [reflexivity |].
  split; [apply total_update |].
  split; [apply value_update_exact, Hx |].
  intros f lvs Hne. apply value_update_ne. congruence.
Qed.

(** The states an aggregator goes through have the label names it was
    made with. *)
Lemma replay_wf evs m m' : wf m -> replay evs m = Ok (tt, m') -> wf m'.
Proof.
  revert m. induction evs as [| ev evs IH]; intros m Hwf Hrun.
  - injection Hrun as <-. exact Hwf.
  - simpl in Hrun. apply bind_Ok_inv in Hrun as ([] & m1 & H1 & Hrest).
    apply handle_Ok_inv in H1 as (_ & _ & ->); [| exact Hwf].
    eapply IH; [| exact Hrest]. apply wf_update, Hwf.
Qed.

End MetricsFacts.

(** ** The hooks *)

Section HookFacts.
Implicit Types (m : Metrics) (meta : kgo.BrokerMetadata) (err : error).

(** Side conditions of [handle_Ok] and [handle_effect] on a hook whose
    arguments are in view. *)
Ltac hook_side :=
  first [ assumption
        | reflexivity
        | unfold amount_of; cbn [bytes_of]; lia ].

(** C1, as stated, fails on a write to node 1.  On the aggregator
    [kafka], with a nil error: with byte count -1 the hook panics and
    no counter moves; with byte count 2^53+1 the value moves by 2^53;
    and after a write of 2^53 bytes a write of 1 byte leaves the value
    at 2^53.  And once write_errors_total at the node has counted to
    2^53, as after that many writes with an error
    ([counted_to_2_53]), a write with an error leaves its value at
    2^53. *)
Lemma C1_counterexample :
  ~ (exists m',
       OnBrokerWrite (broker 1) 0 (-1) 0 0 None kafka = Ok (tt, m') /\
       value write_bytes_total ["1"] m'
       = value write_bytes_total ["1"] kafka + (-1) /\
       value write_errors_total ["1"] m'
       = value write_errors_total ["1"] kafka)
  /\
  ~ (exists m',
       OnBrokerWrite (broker 1) 0 (2 ^ 53 + 1) 0 0 None kafka = Ok (tt, m') /\
       value write_bytes_total ["1"] m'
       = value write_bytes_total ["1"] kafka + (2 ^ 53 + 1) /\
       value write_errors_total ["1"] m'
       = value write_errors_total ["1"] kafka)
  /\
  (exists m1 m2,
     OnBrokerWrite (broker 1) 0 (2 ^ 53) 0 0 None kafka = Ok (tt, m1) /\
     OnBrokerWrite (broker 1) 0 1 0 0 None m1 = Ok (tt, m2) /\
     value write_bytes_total ["1"] m1 = 2 ^ 53 /\
     value write_bytes_total ["1"] m2 = 2 ^ 53 /\
     value write_bytes_total ["1"] m2 <> value write_bytes_total ["1"] m1 + 1)
  /\
  (exists m',
     OnBrokerWrite (broker 1) 0 0 0 0 (Some "EOF")
       (update write_errors_total ["1"] (2 ^ 53) kafka) = Ok (tt, m') /\
     value write_errors_total ["1"]
       (update write_errors_total ["1"] (2 ^ 53) kafka) = 2 ^ 53 /\
     value write_errors_total ["1"] m' = 2 ^ 53).
Proof.
  split; [| split; [| split]].
  - intros (m' & Hrun & _). vm_compute in Hrun. discriminate Hrun.
  - intros (m' & Hrun & Hbytes & _).
    vm_compute in Hrun. injection Hrun as <-.
    vm_compute in Hbytes. discriminate Hbytes.
  - do 2 eexists. split; [vm_compute; reflexivity |].
    split; [vm_compute; reflexivity |].
    split; [vm_compute; reflexivity |].
    split; [vm_compute; reflexivity |].
    vm_compute. discriminate.
  - eexists. split; [vm_compute; reflexivity |].
    split; vm_compute; reflexivity.
Qed.

(** C1, amended: on an aggregator between calls, a write (read) with
    a non-nil error returns, whatever the byte count, adds exactly 1
    to write_errors_total (read_errors_total) at the node as long as
    that value stays within 2^53, and leaves write_bytes_total
    (read_bytes_total) as it was; a write (read) with a nil error and
    a byte count of at least 0 returns, adds exactly the byte count to
    write_bytes_total (read_bytes_total) at the node as long as that
    value stays within 2^53, and leaves write_errors_total
    (read_errors_total) as it was.  The family the error argument does
    not select is unchanged at every label tuple. *)
Theorem C1_write_read_error_or_bytes m meta (key n : Z) (w t : time.Duration) err :
  wf m ->
  match err with
  | Some _ =>
      (exists m',
         OnBrokerWrite meta key n w t err m = Ok (tt, m') /\
         (value write_errors_total [node meta] m + 1 <= 2 ^ 53 ->
          value write_errors_total [node meta] m'
          = value write_errors_total [node meta] m + 1) /\
         forall lvs, value write_bytes_total lvs m' = value write_bytes_total lvs m)
      /\
      (exists m',
         OnBrokerRead meta key n w t err m = Ok (tt, m') /\
         (value read_errors_total [node meta] m + 1 <= 2 ^ 53 ->
          value read_errors_total [node meta] m'
          = value read_errors_total [node meta] m + 1) /\
         forall lvs, value read_bytes_total lvs m' = value read_bytes_total lvs m)
  | None =>
      0 <= n ->
      (exists m',
         OnBrokerWrite meta key n w t err m = Ok (tt, m') /\
         (value write_bytes_total [node meta] m + n <= 2 ^ 53 ->
          value write_bytes_total [node meta] m'
          = value write_bytes_total [node meta] m + n) /\
         forall lvs, value write_errors_total lvs m' = value write_errors_total lvs m)
      /\
      (exists m',
         OnBrokerRead meta key n w t err m = Ok (tt, m') /\
         (value read_bytes_total [node meta] m + n <= 2 ^ 53 ->
          value read_bytes_total [node meta] m'
          = value read_bytes_total [node meta] m + n) /\
         forall lvs, value read_errors_total lvs m' = value read_errors_total lvs m)
  end.
Proof.
  intros Hwf. destruct err as [e|].
  - split.
    + change (OnBrokerWrite meta key n w t (Some e))
        with (handle (BrokerWrite meta key n w t (Some e))).
      rewrite handle_Ok by hook_side.
      eexists; split; [reflexivity |]. split.
      * intros Hsum. apply value_update_exact; [hook_side | exact Hsum].
      * intros lvs. apply value_update_ne. simpl; congruence.
    + change (OnBrokerRead meta key n w t (Some e))
        with (handle (BrokerRead meta key n w t (Some e))).
      rewrite handle_Ok by hook_side.
      eexists; split; [reflexivity |]. split.
      * intros Hsum. apply value_update_exact; [hook_side | exact Hsum].
      * intros lvs. apply value_update_ne. simpl; congruence.
  - intros Hn.
    pose proof (float64_nonneg n Hn) as Hx.
    split.
    + change (OnBrokerWrite meta key n w t None)
        with (handle (BrokerWrite meta key n w t None)).
      rewrite handle_Ok by hook_side.
      eexists; split; [reflexivity |]. split.
      * intros Hsum.
        pose proof (value_nonneg write_bytes_total [node meta] m) as Hv.
        unfold amount_of; cbn [bytes_of].
        rewrite (float64_exact n) by lia.
        apply value_update_exact; [exact Hn | exact Hsum].
      * intros lvs. apply value_update_ne. simpl; congruence.
    + change (OnBrokerRead meta key n w t None)
        with (handle (BrokerRead meta key n w t None)).
      rewrite handle_Ok by hook_side.
      eexists; split; [reflexivity |]. split.
      * intros Hsum.
        pose proof (value_nonneg read_bytes_total [node meta] m) as Hv.
        unfold amount_of; cbn [bytes_of].
        rewrite (float64_exact n) by lia.
        apply value_update_exact; [exact Hn | exact Hsum].
      * intros lvs. apply value_update_ne. simpl; congruence.
Qed.

Lemma C1_witness :
  wf kafka /\ 0 <= 500 /\
  value write_bytes_total ["1"] kafka + 500 <= 2 ^ 53 /\
  exists m',
    OnBrokerWrite (broker 1) 0 500 0 0 None kafka = Ok (tt, m') /\
    value write_bytes_total ["1"] m' = value write_bytes_total ["1"] kafka + 500.
Proof.
  assert (Hsum : value write_bytes_total ["1"] kafka + 500 <= 2 ^ 53) by by_eval.
  split; [apply wf_kafka |]. split; [lia |]. split; [exact Hsum |].
  destruct (C1_write_read_error_or_bytes kafka (broker 1) 0 500 0 0 None wf_kafka)
    as [(m' & Hrun & Hv & _) _]; [lia |].
  exists m'. split; [exact Hrun | exact (Hv Hsum)].
Defined.

(** C2, as stated, fails on the aggregator [kafka] for writes to
    node 1: after the one call writing 2^53+1 bytes the value is
    2^53, one short of the sum; and after the two calls writing 2^53
    bytes and 1 byte it is 2^53 again. *)
Lemma C2_counterexample :
  ~ (exists m',
       replay [BrokerWrite (broker 1) 0 (2 ^ 53 + 1) 0 0 None] kafka
       = Ok (tt, m') /\
       value write_bytes_total ["1"] m'
       = value write_bytes_total ["1"] kafka + sum [2 ^ 53 + 1] /\
       value write_errors_total ["1"] m'
       = value write_errors_total ["1"] kafka)
  /\
  ~ (exists m',
       replay [BrokerWrite (broker 1) 0 (2 ^ 53) 0 0 None;
               BrokerWrite (broker 1) 0 1 0 0 None] kafka
       = Ok (tt, m') /\
       value write_bytes_total ["1"] m'
       = value write_bytes_total ["1"] kafka + sum [2 ^ 53; 1] /\
       value write_errors_total ["1"] m'
       = value write_errors_total ["1"] kafka).
Proof.
  split; intros (m' & Hrun & Hbytes & _);
    vm_compute in Hrun; injection Hrun as <-;
    vm_compute in Hbytes; discriminate Hbytes.
Qed.

(** C2, amended: for every finite sequence of successful (nil-error)
    calls of OnBrokerWrite on node x with byte counts b1..bN, each at
    least 0, starting from any state of the aggregator in which the
    value of write_bytes_total at x plus b1+...+bN is within 2^53,
    all calls return, the final value of write_bytes_total at x is
    its initial value plus b1+...+bN, and write_errors_total at x
    keeps its initial value. *)
Theorem C2_successful_writes_add_up (x : Z) (evs : list Event) m :
  wf m ->
  Forall (successful_write x) evs ->
  Forall (fun b => 0 <= b) (counts evs) ->
  value write_bytes_total [strconv.Itoa x] m + sum (counts evs) <= 2 ^ 53 ->
  exists m',
    replay evs m = Ok (tt, m') /\
    value write_bytes_total [strconv.Itoa x] m'
    = value write_bytes_total [strconv.Itoa x] m + sum (counts evs) /\
    value write_errors_total [strconv.Itoa x] m'
    = value write_errors_total [strconv.Itoa x] m.
Proof.
  revert m. induction evs as [| ev evs IH]; intros m Hwf Hok Hrange Hsum.
  - exists m. simpl. repeat split; lia.
  - inversion Hok as [| ? ? Hev Hevs]; subst.
    inversion Hrange as [| ? ? Hb Hbs]; subst.
    destruct ev as [| | meta key n w t [e|] | | |]; simpl in Hev; try contradiction.
    simpl in Hb. subst x.
    assert (Hrest : 0 <= sum (counts evs)).
    { clear -Hbs. induction Hbs as [| b bs Hb _ IHbs]; simpl; lia. }
    pose proof (value_nonneg write_bytes_total
                  [strconv.Itoa (kgo.NodeID meta)] m) as Hv.
    change (sum (counts (BrokerWrite meta key n w t None :: evs)))
      with (n + sum (counts evs)) in *.
    assert (Hx : float64 n = n) by (apply float64_exact; lia).
    destruct (handle_effect (BrokerWrite meta key n w t None) m Hwf eq_refl)
      as (m1 & Hrun & Hwf1 & _ & _ & Hsame & Hother).
    { unfold amount_of; simpl. rewrite Hx. lia. }
    unfold amount_of in Hsame; simpl in Hsame. rewrite Hx in Hsame.
    cbv [labels_of family_of node_label meta_of node int_of_int32] in Hsame.
    specialize (Hsame ltac:(lia)).
    destruct (IH m1 Hwf1 Hevs Hbs) as (m' & Hrun' & Hbytes & Herrs).
    { rewrite Hsame. lia. }
    exists m'. split.
    + simpl replay. rewrite (bind_Ok _ _ _ _ _ Hrun). exact Hrun'.
    + split.
      * rewrite Hbytes, Hsame. lia.
      * rewrite Herrs. apply Hother. simpl; congruence.
Qed.

Lemma C2_witness :
  wf kafka /\
  Forall (successful_write 1)
    [BrokerWrite (broker 1) 3 500 0 0 None; BrokerWrite (broker 1) 0 0 7 9 None] /\
  Forall (fun b => 0 <= b) [500; 0] /\
  value write_bytes_total ["1"] kafka + 500 <= 2 ^ 53 /\
  exists m',
    replay [BrokerWrite (broker 1) 3 500 0 0 None;
            BrokerWrite (broker 1) 0 0 7 9 None] kafka = Ok (tt, m') /\
    value write_bytes_total ["1"] m' = value write_bytes_total ["1"] kafka + 500.
Proof.
  assert (H1 : Forall (successful_write 1)
                 [BrokerWrite (broker 1) 3 500 0 0 None;
                  BrokerWrite (broker 1) 0 0 7 9 None])
    by (repeat constructor).
  assert (H2 : Forall (fun b => 0 <= b) [500; 0])
    by (repeat constructor; lia).
  assert (H3 : value write_bytes_total ["1"] kafka + 500 <= 2 ^ 53) by by_eval.
  split; [apply wf_kafka |]. split; [exact H1 |]. split; [exact H2 |].
  split; [exact H3 |].
  destruct (C2_successful_writes_add_up 1 _ kafka wf_kafka H1 H2 H3)
    as (m' & Hrun & Hbytes & _).
  exists m'. split; [exact Hrun | exact Hbytes].
Defined.

(** C3, as stated, fails once a counter has counted to 2^53, as after
    that many connects ([counted_to_2_53]): with connects_total at
    node 1 there, a connect without error returns and the value is
    still 2^53; and the same holds of connect_errors_total and a
    connect with an error. *)
Lemma C3_counterexample :
  (exists m',
     OnBrokerConnect (broker 1) 0 None None
       (update connects_total ["1"] (2 ^ 53) kafka) = Ok (tt, m') /\
     value connects_total ["1"]
       (update connects_total ["1"] (2 ^ 53) kafka) = 2 ^ 53 /\
     value connects_total ["1"] m' = 2 ^ 53)
  /\
  (exists m',
     OnBrokerConnect (broker 1) 0 None (Some "connection refused")
       (update connect_errors_total ["1"] (2 ^ 53) kafka) = Ok (tt, m') /\
     value connect_errors_total ["1"]
       (update connect_errors_total ["1"] (2 ^ 53) kafka) = 2 ^ 53 /\
     value connect_errors_total ["1"] m' = 2 ^ 53).
Proof.
  split; eexists; (split; [vm_compute; reflexivity |]);
    split; vm_compute; reflexivity.
Qed.

(** C3, amended: on an aggregator between calls, every call of
    OnBrokerConnect returns; with a nil error it adds exactly 1 to
    connects_total at the node, as long as that value stays within
    2^53, and leaves connect_errors_total unchanged, and with a
    non-nil error it adds exactly 1 to connect_errors_total at the
    node, as long as that value stays within 2^53, and leaves
    connects_total unchanged. *)
Theorem C3_connect_bifurcates m meta (d : time.Duration) (conn : net.Conn) err :
  wf m ->
  exists m',
    OnBrokerConnect meta d conn err m = Ok (tt, m') /\
    match err with
    | None =>
        (value connects_total [node meta] m + 1 <= 2 ^ 53 ->
         value connects_total [node meta] m'
         = value connects_total [node meta] m + 1) /\
        forall lvs, value connect_errors_total lvs m'
                    = value connect_errors_total lvs m
    | Some _ =>
        (value connect_errors_total [node meta] m + 1 <= 2 ^ 53 ->
         value connect_errors_total [node meta] m'
         = value connect_errors_total [node meta] m + 1) /\
        forall lvs, value connects_total lvs m' = value connects_total lvs m
    end.
Proof.
  intros Hwf.
  destruct (handle_effect (BrokerConnect meta d conn err) m Hwf eq_refl)
    as (m' & Hrun & _ & _ & _ & Hsame & Hother).
  { unfold amount_of; simpl. lia. }
  exists m'. split; [exact Hrun |].
  destruct err as [e|]; (split; [exact Hsame |]);
    intros lvs; apply Hother; simpl; congruence.
Qed.

Lemma C3_witness :
  wf kafka /\
  value connect_errors_total ["2"] kafka + 1 <= 2 ^ 53 /\
  exists m',
    OnBrokerConnect (broker 2) 15 None (Some "connection refused") kafka
    = Ok (tt, m') /\
    value connect_errors_total ["2"] m'
    = value connect_errors_total ["2"] kafka + 1.
Proof.
  assert (Hsum : value connect_errors_total ["2"] kafka + 1 <= 2 ^ 53) by by_eval.
  split; [apply wf_kafka |]. split; [exact Hsum |].
  destruct (C3_connect_bifurcates kafka (broker 2) 15 None
              (Some "connection refused") wf_kafka)
    as (m' & Hrun & Hv & _).
  exists m'. split; [exact Hrun | exact (Hv Hsum)].
Defined.

End HookFacts.

Section BatchAndFrameFacts.
Implicit Types (m : Metrics) (meta : kgo.BrokerMetadata) (err : error).

(** C4, as stated, fails for a produce batch at node 1 of the
    aggregator [kafka]: on topic "orders", with an uncompressed byte
    count of -1 the hook panics, with 2^53+1 the value moves by 2^53,
    and after a batch of 2^53 bytes a batch of 1 byte leaves the value
    at 2^53; and on a topic that is not valid UTF-8 the hook panics
    whatever the count. *)
Lemma C4_counterexample :
  ~ (exists m',
       OnProduceBatchWritten (broker 1) "orders" 0 (produced (-1)) kafka
       = Ok (tt, m') /\
       value produce_bytes_total ["1"; "orders"] m'
       = value produce_bytes_total ["1"; "orders"] kafka + (-1))
  /\
  ~ (exists m',
       OnProduceBatchWritten (broker 1) "orders" 0 (produced (2 ^ 53 + 1)) kafka
       = Ok (tt, m') /\
       value produce_bytes_total ["1"; "orders"] m'
       = value produce_bytes_total ["1"; "orders"] kafka + (2 ^ 53 + 1))
  /\
  (exists m1 m2,
     OnProduceBatchWritten (broker 1) "orders" 0 (produced (2 ^ 53)) kafka
     = Ok (tt, m1) /\
     OnProduceBatchWritten (broker 1) "orders" 0 (produced 1) m1
     = Ok (tt, m2) /\
     value produce_bytes_total ["1"; "orders"] m1 = 2 ^ 53 /\
     value produce_bytes_total ["1"; "orders"] m2 = 2 ^ 53 /\
     value produce_bytes_total ["1"; "orders"] m2
     <> value produce_bytes_total ["1"; "orders"] m1 + 1)
  /\
  ~ (exists m',
       OnProduceBatchWritten (broker 1) byte_255 0 (produced 10) kafka
       = Ok (tt, m') /\
       value produce_bytes_total ["1"; byte_255] m'
       = value produce_bytes_total ["1"; byte_255] kafka + 10).
Proof.
  split; [| split; [| split]].
  - intros (m' & Hrun & _). vm_compute in Hrun. discriminate Hrun.
  - intros (m' & Hrun & Hbytes).
    vm_compute in Hrun. injection Hrun as <-.
    vm_compute in Hbytes. discriminate Hbytes.
  - do 2 eexists. split; [vm_compute; reflexivity |].
    split; [vm_compute; reflexivity |].
    split; [vm_compute; reflexivity |].
    split; [vm_compute; reflexivity |].
    vm_compute. discriminate.
  - intros (m' & Hrun & _). vm_compute in Hrun. discriminate Hrun.
Qed.

(** C4, amended: on an aggregator between calls, a call of
    OnProduceBatchWritten (OnFetchBatchRead) for node X and a topic T
    that is valid UTF-8, whose uncompressed byte count U is at least
    0, returns; it adds exactly U to produce_bytes_total
    (fetch_bytes_total) at (X, T) as long as that value stays within
    2^53; every other family, and every other label tuple of the same
    family, keeps its value. *)
Theorem C4_produce_fetch_frame m meta (topic : string) (p : Z)
    (pbm : kgo.ProduceBatchMetrics.t) (fbm : kgo.FetchBatchMetrics.t) :
  wf m ->
  utf8.ValidString topic = true ->
  (0 <= kgo.ProduceBatchMetrics.UncompressedBytes pbm ->
   exists m',
     OnProduceBatchWritten meta topic p pbm m = Ok (tt, m') /\
     (value produce_bytes_total [node meta; topic] m
      + kgo.ProduceBatchMetrics.UncompressedBytes pbm <= 2 ^ 53 ->
      value produce_bytes_total [node meta; topic] m'
      = value produce_bytes_total [node meta; topic] m
        + kgo.ProduceBatchMetrics.UncompressedBytes pbm) /\
     forall f lvs, (f, lvs) <> (produce_bytes_total, [node meta; topic]) ->
                   value f lvs m' = value f lvs m)
  /\
  (0 <= kgo.FetchBatchMetrics.UncompressedBytes fbm ->
   exists m',
     OnFetchBatchRead meta topic p fbm m = Ok (tt, m') /\
     (value fetch_bytes_total [node meta; topic] m
      + kgo.FetchBatchMetrics.UncompressedBytes fbm <= 2 ^ 53 ->
      value fetch_bytes_total [node meta; topic] m'
      = value fetch_bytes_total [node meta; topic] m
        + kgo.FetchBatchMetrics.UncompressedBytes fbm) /\
     forall f lvs, (f, lvs) <> (fetch_bytes_total, [node meta; topic]) ->
                   value f lvs m' = value f lvs m).
Proof.
  intros Hwf Hutf. split; intros Hu.
  - destruct (handle_effect (ProduceBatchWritten meta topic p pbm) m Hwf Hutf)
      as (m' & Hrun & _ & _ & _ & Hsame & Hother).
    { unfold amount_of; simpl. apply float64_nonneg, Hu. }
    exists m'. split; [exact Hrun |]. split; [| exact Hother].
    intros Hsum.
    pose proof (value_nonneg produce_bytes_total [node meta; topic] m) as Hv.
    unfold amount_of in Hsame; simpl in Hsame.
    rewrite float64_exact in Hsame by lia. exact (Hsame Hsum).
  - destruct (handle_effect (FetchBatchRead meta topic p fbm) m Hwf Hutf)
      as (m' & Hrun & _ & _ & _ & Hsame & Hother).
    { unfold amount_of; simpl. apply float64_nonneg, Hu. }
    exists m'. split; [exact Hrun |]. split; [| exact Hother].
    intros Hsum.
    pose proof (value_nonneg fetch_bytes_total [node meta; topic] m) as Hv.
    unfold amount_of in Hsame; simpl in Hsame.
    rewrite float64_exact in Hsame by lia. exact (Hsame Hsum).
Qed.

Lemma C4_witness :
  wf kafka /\ utf8.ValidString "orders" = true /\
  0 <= 1000 /\
  value fetch_bytes_total ["1"; "orders"] kafka + 1000 <= 2 ^ 53 /\
  exists m',
    OnFetchBatchRead (broker 1) "orders" 4 (fetched 1000) kafka = Ok (tt, m') /\
    value fetch_bytes_total ["1"; "orders"] m'
    = value fetch_bytes_total ["1"; "orders"] kafka + 1000.
Proof.
  assert (Hsum : value fetch_bytes_total ["1"; "orders"] kafka + 1000 <= 2 ^ 53)
    by by_eval.
  split; [apply wf_kafka |]. split; [reflexivity |].
  split; [lia |]. split; [exact Hsum |].
  destruct (C4_produce_fetch_frame kafka (broker 1) "orders" 4
              (produced 700) (fetched 1000) wf_kafka eq_refl)
    as [_ Hfetch].
  destruct Hfetch as (m' & Hrun & Hv & _); [simpl; lia |].
  exists m'. split; [exact Hrun | exact (Hv Hsum)].
Defined.

(** C6, as stated, fails on the aggregator [kafka]: a read of
    2^63-1 bytes from node 1, the largest byte count there is, returns
    with read_bytes_total at 2^63, and a second such read returns with
    it at 0: the total behind the value has wrapped around. *)
Lemma C6_counterexample :
  counts_nonneg (BrokerRead (broker 1) 0 (2 ^ 63 - 1) 0 0 None) /\
  exists m1 m2,
    handle (BrokerRead (broker 1) 0 (2 ^ 63 - 1) 0 0 None) kafka = Ok (tt, m1) /\
    handle (BrokerRead (broker 1) 0 (2 ^ 63 - 1) 0 0 None) m1 = Ok (tt, m2) /\
    value read_bytes_total ["1"] m1 = 2 ^ 63 /\
    value read_bytes_total ["1"] m2 = 0 /\
    ~ value read_bytes_total ["1"] m1 <= value read_bytes_total ["1"] m2.
Proof.
  split; [by_eval |].
  do 2 eexists. split; [vm_compute; reflexivity |].
  split; [vm_compute; reflexivity |].
  split; [vm_compute; reflexivity |].
  split; [vm_compute; reflexivity |].
  vm_compute. intros H. apply H. reflexivity.
Qed.

(** C6, amended: on an aggregator between calls, across a call of any
    of the six hooks whose byte-count or uncompressed-byte-count
    argument is non-negative and which does not take the total of the
    counter it adds to past 2^64 - 1, no family has a smaller total or
    a smaller value at any label tuple afterwards than before: the
    hook adds 1 or the non-negative amount at one tuple and leaves the
    rest.  Such a call returns whenever its topic, if it has one, is
    valid UTF-8. *)
Theorem C6_counters_never_decrease ev m :
  wf m -> counts_nonneg ev ->
  total (family_of ev) (labels_of ev) m + amount_of ev < 2 ^ 64 ->
  (forall m', handle ev m = Ok (tt, m') ->
              forall f lvs, total f lvs m <= total f lvs m' /\
                            value f lvs m <= value f lvs m') /\
  (topic_valid ev = true -> exists m', handle ev m = Ok (tt, m')).
Proof.
  intros Hwf Hnn Hsum.
  pose proof (amount_of_nonneg ev Hnn) as Hx. split.
  - intros m' Hrun f lvs.
    apply handle_Ok_inv in Hrun as (_ & _ & ->); [| exact Hwf].
    split; [apply total_update_le | apply value_update_le]; assumption.
  - intros Hvalid. rewrite handle_Ok by assumption. eauto.
Qed.

Lemma C6_witness :
  wf kafka /\ counts_nonneg (BrokerRead (broker 3) 1 4096 0 0 None) /\
  total read_bytes_total ["3"] kafka + 4096 < 2 ^ 64 /\
  topic_valid (BrokerRead (broker 3) 1 4096 0 0 None) = true /\
  exists m',
    handle (BrokerRead (broker 3) 1 4096 0 0 None) kafka = Ok (tt, m') /\
    forall f lvs, total f lvs kafka <= total f lvs m' /\
                  value f lvs kafka <= value f lvs m'.
Proof.
  assert (Hnn : counts_nonneg (BrokerRead (broker 3) 1 4096 0 0 None))
    by by_eval.
  assert (Hsum : total read_bytes_total ["3"] kafka + 4096 < 2 ^ 64)
    by (vm_compute; reflexivity).
  split; [apply wf_kafka |]. split; [exact Hnn |]. split; [exact Hsum |].
  split; [reflexivity |].
  destruct (C6_counters_never_decrease _ kafka wf_kafka Hnn Hsum)
    as [Hmono Hret].
  destruct (Hret eq_refl) as [m' Hrun].
  exists m'. split; [exact Hrun | exact (Hmono m' Hrun)].
Defined.

(** C8, as stated, fails on the aggregator [kafka]: a successful write
    of -1 bytes to node 1 panics, and so does a produce batch on a
    topic that is not valid UTF-8. *)
Lemma C8_counterexample :
  returns (OnBrokerWrite (broker 1) 0 (-1) 0 0 None kafka) = false /\
  returns (OnProduceBatchWritten (broker 1) byte_255 0 (produced 10) kafka)
  = false.
Proof. split; vm_compute; reflexivity. Qed.

(** C8, amended: on an aggregator between calls, a hook returns
    exactly when the byte count it adds is non-negative and its topic,
    if it has one, is valid UTF-8: the connect and disconnect hooks
    and the write and read hooks called with an error always return,
    whatever the byte count; the write and read hooks called without
    an error return when the byte count is at least 0 and panic when
    it is negative; the produce and fetch hooks return when the
    uncompressed byte count is at least 0 and the topic is valid UTF-8
    and panic otherwise.  A hook that returns has updated counters
    only: the configuration is as before. *)
Theorem C8_hooks_return_iff ev m :
  wf m ->
  returns (handle ev m)
  = topic_valid ev && match bytes_of ev with
                      | Some n => 0 <=? n
                      | None => true
                      end
  /\ forall m', handle ev m = Ok (tt, m') ->
                Metrics_cfg m' = Metrics_cfg m /\ wf m'.
Proof.
  intros Hwf. split.
  - rewrite handle_spec by assumption.
    destruct (topic_valid ev); [| reflexivity]. cbn [negb andb].
    unfold amount_of. destruct (bytes_of ev) as [n|]; [| reflexivity].
    rewrite float64_ltb_0.
    destruct (Z.ltb_spec n 0), (Z.leb_spec 0 n); try reflexivity; lia.
  - intros m' Hrun.
    apply handle_Ok_inv in Hrun as (_ & _ & ->); [| exact Hwf].
    split; [reflexivity | apply wf_update, Hwf].
Qed.

Lemma C8_witness :
  wf kafka /\
  returns (handle (BrokerWrite (broker 1) 0 (-1) 0 0 (Some "EOF")) kafka) = true.
Proof.
  split; [apply wf_kafka |].
  exact (proj1 (C8_hooks_return_iff
                  (BrokerWrite (broker 1) 0 (-1) 0 0 (Some "EOF")) kafka wf_kafka)).
Defined.

(** C10: two calls of the same hook that agree on the node
    identifier, on the topic where there is one, on the byte count
    where there is one and on whether the error is nil have the same
    outcome in every state: the same counter-state when they return,
    and the same panic otherwise.  Durations, connection, request
    key, partition, the other fields of the metadata and of the
    batch metrics, and the value of a non-nil error play no part. *)
Theorem C10_unobserved_arguments (e1 e2 : Event) m :
  hook_of e1 = hook_of e2 ->
  kgo.NodeID (meta_of e1) = kgo.NodeID (meta_of e2) ->
  topic_of e1 = topic_of e2 ->
  count_of e1 = count_of e2 ->
  is_nil (err_of e1) = is_nil (err_of e2) ->
  handle e1 m = handle e2 m.
Proof.
  intros Hhook Hnode Htopic Hcount Herr.
  destruct e1 as [meta1 d1 conn1 [err1|] | meta1 conn1
                 | meta1 key1 n1 w1 t1 [err1|] | meta1 key1 n1 w1 t1 [err1|]
                 | meta1 topic1 p1 pbm1 | meta1 topic1 p1 fbm1];
    destruct e2 as [meta2 d2 conn2 [err2|] | meta2 conn2
                   | meta2 key2 n2 w2 t2 [err2|] | meta2 key2 n2 w2 t2 [err2|]
                   | meta2 topic2 p2 pbm2 | meta2 topic2 p2 fbm2];
    simpl in *; try discriminate;
    unfold OnBrokerConnect, OnBrokerDisconnect, OnBrokerWrite, OnBrokerRead,
           OnProduceBatchWritten, OnFetchBatchRead;
    rewrite Hnode;
    repeat match goal with
           | H : Some _ = Some _ |- _ => injection H as H
           end;
    repeat match goal with
           | H : _ = _ |- _ => rewrite H; clear H
           end;
    reflexivity.
Qed.

Lemma C10_witness :
  handle (BrokerWrite (broker 1) 3 500 10 20 (Some "EOF")) kafka
  = handle (BrokerWrite
              {| kgo.NodeID := 1; kgo.Port := 9093;
                 kgo.Host := "elsewhere"; kgo.Rack := Some "r1" |}
              18 500 0 1 (Some "broken pipe")) kafka.
Proof.
  apply C10_unobserved_arguments; reflexivity.
Defined.

(** C7: for every node identifier, and so for every signed 32-bit
    one, the label [Itoa] gives is its canonical decimal: it reads
    back as the identifier, has the canonical shape (no leading zero,
    no signed zero), is the only string with these two properties, and
    starts with a minus sign exactly when the identifier is negative.
    The least signed 32-bit identifier, MinInt32, gives
    "-2147483648", by the same rule as any other.  In each of the six hooks, the one label tuple a
    returning call creates or updates has this string as its node_id. *)
Theorem C7_node_label_decimal :
  (forall n : Z,
     strconv.Atoi (strconv.Itoa n) = Some n /\
     strconv.canonical (strconv.Itoa n) = true /\
     (forall s, strconv.canonical s = true -> strconv.Atoi s = Some n ->
                s = strconv.Itoa n) /\
     (n < 0 <-> exists s, strconv.Itoa n = String "-" s)) /\
  (int32_range MinInt32 /\ forall n, int32_range n -> MinInt32 <= n) /\
  strconv.Itoa MinInt32 = "-2147483648" /\
  (forall ev m m',
     wf m -> handle ev m = Ok (tt, m') ->
     exists f rest,
       let lvs := strconv.Itoa (int_of_int32 (kgo.NodeID (meta_of ev))) :: rest in
       is_Some (children (vec f m') !! lvs) /\
       forall f' lvs',
         (f', lvs') <> (f, lvs) ->
         children (vec f' m') !! lvs' = children (vec f' m) !! lvs').
Proof.
  split; [| split; [| split]].
  - intros n. split; [apply Atoi_Itoa |]. split; [apply canonical_Itoa |].
    split; [intros s; apply Itoa_unique | apply Itoa_sign].
  - unfold int32_range, MinInt32. split; [by_eval | lia].
  - vm_compute. reflexivity.
  - intros ev m m' Hwf Hrun.
    apply handle_Ok_inv in Hrun as (_ & _ & ->); [| exact Hwf].
    exists (family_of ev), (tl (labels_of ev)).
    assert (Hl : strconv.Itoa (int_of_int32 (kgo.NodeID (meta_of ev)))
                 :: tl (labels_of ev) = labels_of ev)
      by (destruct ev; reflexivity).
    cbv zeta. rewrite Hl. split.
    + unfold update. rewrite vec_set_vec. apply lookup_add_at_is_Some.
    + intros f' lvs' Hne. apply lookup_update_ne. congruence.
Qed.

Lemma C7_witness :
  wf kafka /\
  exists m',
    handle (BrokerConnect (broker MinInt32) 0 None None) kafka = Ok (tt, m') /\
    exists f rest, is_Some (children (vec f m') !! ("-2147483648" :: rest)).
Proof.
  split; [apply wf_kafka |].
  assert (Hrun : handle (BrokerConnect (broker MinInt32) 0 None None) kafka
                 = Ok (tt, update connects_total ["-2147483648"] 1 kafka))
    by (vm_compute; reflexivity).
  eexists. split; [exact Hrun |].
  destruct C7_node_label_decimal as (_ & _ & _ & Hhook).
  destruct (Hhook _ _ _ wf_kafka Hrun) as (f & rest & Hsome & _).
  exists f, rest. exact Hsome.
Defined.

End BatchAndFrameFacts.

(** ** Construction *)

Section NewMetricsFacts.
Context `{Library}.
Implicit Types (h : heap) (l : loc) (ds : list string) (dss : list (list string)).

Lemma mem_In x (xs : list string) : mem x xs = true <-> In x xs.
Proof.
  unfold mem. rewrite existsb_exists. split.
  - intros (y & Hy & Heq). apply String.eqb_eq in Heq. subst. assumption.
  - intros Hx. exists x. split; [assumption | apply String.eqb_refl].
Qed.

Lemma mem_app x (xs ys : list string) : mem x (xs ++ ys) = mem x xs || mem x ys.
Proof. unfold mem. apply existsb_app. Qed.

Lemma distinct_app (xs ys : list string) :
  distinct (xs ++ ys)
  = distinct xs && forallb (fun y => negb (mem y xs)) ys && distinct ys.
Proof.
  induction xs as [| x xs IH]; simpl.
  - assert (forallb (fun _ : string => true) ys = true) as ->
      by (apply forallb_forall; auto).
    reflexivity.
  - rewrite IH, mem_app.
    assert (forallb (fun y => negb ((y =? x)%string || mem y xs)) ys
            = negb (mem x ys) && forallb (fun y => negb (mem y xs)) ys) as ->.
    { clear. induction ys as [| y ys IH]; simpl; [reflexivity |].
      rewrite IH, (String.eqb_sym y x).
      destruct (x =? y)%string, (mem y xs), (mem x ys); reflexivity. }
    destruct (mem x xs), (mem x ys), (distinct xs), (distinct ys),
      (forallb (fun y => negb (mem y xs)) ys); reflexivity.
Qed.

(** The three checks of [Register], one by one. *)
Lemma Register_Some ds r :
  forallb IsValidMetricName ds = true ->
  distinct (names r ++ ds) = true ->
  Register ds r = Some {| names := names r ++ ds |}.
Proof.
  intros Hvalid Hdist. unfold Register.
  rewrite distinct_app in Hdist.
  apply andb_prop in Hdist as [Hdist Hds].
  apply andb_prop in Hdist as [_ Hfresh].
  rewrite Hvalid, Hfresh, Hds. reflexivity.
Qed.

Lemma Register_collision ds r x :
  In x (names r) -> In x ds -> Register ds r = None.
Proof.
  intros Hr Hds. unfold Register.
  assert (forallb (fun d => negb (mem d (names r))) ds = false) as ->.
  { apply not_true_is_false. intros Hall.
    rewrite forallb_forall in Hall. specialize (Hall x Hds).
    apply mem_In in Hr. rewrite Hr in Hall. discriminate. }
  rewrite andb_false_r. reflexivity.
Qed.

Lemma Register_grows ds r r' x :
  Register ds r = Some r' -> In x (names r) -> In x (names r').
Proof.
  unfold Register. destruct (_ && _); [| discriminate].
  intros [= <-] Hx. simpl. apply in_or_app. auto.
Qed.

Lemma register_all_Ok l dss h r :
  h !! l = Some r ->
  forallb IsValidMetricName (concat dss) = true ->
  distinct (names r ++ concat dss) = true ->
  register_all (Some l) dss h
  = Ok (tt, <[l := {| names := names r ++ concat dss |}]> h).
Proof.
  revert h r. induction dss as [| ds dss IH]; intros h r Hl Hvalid Hdist.
  - simpl. rewrite app_nil_r. unfold ret. do 2 f_equal.
    symmetry. apply insert_id. destruct r; exact Hl.
  - simpl in Hvalid, Hdist. rewrite forallb_app in Hvalid.
    apply andb_prop in Hvalid as [Hv1 Hv2].
    rewrite app_assoc in Hdist.
    assert (Hd1 : distinct (names r ++ ds) = true).
    { rewrite distinct_app in Hdist.
      apply andb_prop in Hdist as [Hdist _].
      apply andb_prop in Hdist as [Hdist _]. exact Hdist. }
    simpl register_all. unfold bind at 1, MustRegister.
    rewrite Hl, (Register_Some ds r Hv1 Hd1).
    rewrite (IH _ {| names := names r ++ ds |}); simpl.
    + rewrite insert_insert_eq, <- app_assoc. reflexivity.
    + apply lookup_insert_eq.
    + exact Hv2.
    + exact Hdist.
Qed.

Lemma register_all_collision l dss h r x :
  h !! l = Some r -> In x (names r) -> In x (concat dss) ->
  exists msg, register_all (Some l) dss h = Panic msg.
Proof.
  revert h r. induction dss as [| ds dss IH]; intros h r Hl Hr Hx;
    [contradiction |].
  simpl in Hx. apply in_app_or in Hx.
  simpl register_all. unfold bind at 1, MustRegister. rewrite Hl.
  destruct (Register ds r) as [r'|] eqn:Hreg; [| eauto].
  destruct Hx as [Hx | Hx].
  - rewrite (Register_collision ds r x Hr Hx) in Hreg. discriminate.
  - apply (IH _ r'); [apply lookup_insert_eq | | exact Hx].
    eapply Register_grows; eassumption.
Qed.

Lemma register_all_nil dss h :
  dss <> [] -> exists msg, register_all None dss h = Panic msg.
Proof.
  destruct dss as [| ds dss]; [congruence |].
  intros _. eexists. reflexivity.
Qed.

Lemma bind_assoc {S A B C : Type} (c : St S A) (f : A -> St S B)
    (k : B -> St S C) s :
  bind (bind c f) k s = bind c (fun a => bind (f a) k) s.
Proof. unfold bind. destruct (c s) as [[a s1] | msg]; reflexivity. Qed.

(** One registration of the run, against one of the list. *)
Lemma step_MustRegister {B : Type} (p : ptr) ds dss (k : unit -> St heap B)
    (F : heap -> result (B * heap)) h :
  (forall h1, k tt h1 = match register_all p dss h1 with
                        | Ok (_, h') => F h'
                        | Panic msg => Panic msg
                        end) ->
  bind (MustRegister p ds) k h
  = match register_all p (ds :: dss) h with
    | Ok (_, h') => F h'
    | Panic msg => Panic msg
    end.
Proof.
  intros Hk. simpl register_all. unfold bind.
  destruct (MustRegister p ds h) as [[[] h1] | msg]; [apply Hk | reflexivity].
Qed.

Lemma step_NewCounterVec {B : Type} (p : ptr) (o : CounterOpts)
    (labelNames : list string) dss (k : CounterVec -> St heap B)
    (F : heap -> result (B * heap)) h :
  (forall h1, k (NewCounterVec o labelNames) h1
              = match register_all p dss h1 with
                | Ok (_, h') => F h'
                | Panic msg => Panic msg
                end) ->
  bind (promauto.NewCounterVec (promauto.With p) o labelNames) k h
  = match register_all p
            ([BuildFQName (Namespace o) (Subsystem o) (Name o)] :: dss) h with
    | Ok (_, h') => F h'
    | Panic msg => Panic msg
    end.
Proof.
  intros Hk. unfold promauto.NewCounterVec. cbn [promauto.r promauto.With].
  cbv iota. rewrite bind_assoc. apply step_MustRegister. intros h1. apply Hk.
Qed.

(** [NewMetrics] is: a new registry, the option loop, the
    registrations in order, and the struct literal. *)
Lemma NewMetrics_unfold namespace (opts : list Opt) h :
  let l := fresh (dom h) in
  let c := configure (Some l) opts in
  NewMetrics namespace opts h
  = match register_all (reg c) (registrations c namespace)
            (<[l := {| names := [] |}]> h) with
    | Ok (_, h') => Ok (built c namespace, h')
    | Panic msg => Panic msg
    end.
Proof.
  intros l c. unfold NewMetrics, registrations.
  rewrite (bind_Ok NewRegistry _ h (Some l) (<[l := {| names := [] |}]> h) eq_refl).
  change (fold_left (fun c o => apply o c) opts _) with c.
  generalize (<[l := {| names := [] |}]> h). intros h1.
  destruct (goCollectors c); cbn [app map families].
  - rewrite bind_assoc.
    apply step_MustRegister; intros h2.
    apply step_MustRegister; intros h3.
    do 9 (apply step_NewCounterVec; intros ?).
    reflexivity.
  - rewrite (bind_Ok (ret tt) _ h1 tt h1 eq_refl).
    do 9 (apply step_NewCounterVec; intros ?).
    reflexivity.
Qed.

(** The option loop leaves the registry alone unless told otherwise. *)
Lemma configure_keeps_registry (r : ptr) (opts : list Opt) :
  Forall keeps_registry opts -> reg (configure r opts) = r.
Proof.
  intros Hopts. unfold configure.
  assert (Hgen : forall c0, reg (fold_left (fun c o => apply o c) opts c0) = reg c0).
  { induction Hopts as [| o opts Ho _ IH]; intros c0; [reflexivity |].
    simpl. rewrite IH. destruct Ho as [-> | [ho ->]]; reflexivity. }
  apply Hgen.
Qed.

(** *** The nine names *)

Lemma family_name_inj (f g : family) : family_name f = family_name g -> f = g.
Proof. destruct f, g; simpl; intros Heq; try reflexivity; discriminate Heq. Qed.

Lemma fq_spec namespace (f : family) :
  fq namespace f
  = if String.eqb namespace "" then family_name f
    else namespace +:+ "_" +:+ family_name f.
Proof.
  unfold fq, BuildFQName.
  destruct (String.eqb namespace ""); destruct f; reflexivity.
Qed.

Lemma fq_inj namespace (f g : family) : fq namespace f = fq namespace g -> f = g.
Proof.
  rewrite !fq_spec. destruct (String.eqb namespace "").
  - apply family_name_inj.
  - intros Heq. apply String.app_inj in Heq. apply String.app_inj in Heq.
    apply family_name_inj, Heq.
Qed.

Lemma distinct_map_inj {A : Type} (g : A -> string) (l : list A) :
  (forall a b, g a = g b -> a = b) -> NoDup l -> distinct (map g l) = true.
Proof.
  intros Hinj Hnd. induction Hnd as [| a l Hnotin _ IH]; [reflexivity |].
  simpl. rewrite IH, andb_true_r. apply negb_true_iff, not_true_is_false.
  intros Hmem. apply mem_In, in_map_iff in Hmem as (b & Heq & Hb).
  apply Hinj in Heq. subst b. apply Hnotin. apply list_elem_of_In, Hb.
Qed.

Lemma distinct_fq namespace : distinct (map (fq namespace) families) = true.
Proof. apply distinct_map_inj; [apply fq_inj | apply NoDup_families]. Qed.

Lemma concat_registrations c namespace :
  concat (registrations c namespace)
  = ((if goCollectors c then (ProcessCollectorDescs ++ GoCollectorDescs)%list
      else []) ++ map (fq namespace) families)%list.
Proof. unfold registrations. destruct (goCollectors c); simpl; rewrite ?app_nil_r, <- ?app_assoc; reflexivity. Qed.

Lemma NewMetrics_Ok_built namespace (opts : list Opt) h m h' :
  NewMetrics namespace opts h = Ok (m, h') ->
  m = built (configure (Some (fresh (dom h))) opts) namespace.
Proof.
  rewrite NewMetrics_unfold.
  destruct (register_all _ _ _) as [[[] h1] | msg]; [| discriminate].
  intros [= <- _]. reflexivity.
Qed.

Lemma NewMetrics_wf namespace (opts : list Opt) h m h' :
  NewMetrics namespace opts h = Ok (m, h') -> wf m.
Proof. intros Hrun. rewrite (NewMetrics_Ok_built _ _ _ _ _ Hrun). apply wf_built. Qed.

(** Every state the package can bring an aggregator to is one the
    theorems about the hooks speak of. *)
Lemma reachable_wf m : reachable m -> wf m.
Proof.
  intros (namespace & opts & h & h' & m0 & evs & Hnew & Hrun).
  eapply replay_wf; [| exact Hrun]. eapply NewMetrics_wf, Hnew.
Qed.

(** C5, amended: the aggregator owns exactly nine counter families,
    the eight of the package comment and disconnects_total: the nine
    fields make up all of its counter state, [NewMetrics] fills each
    with an empty vector under the family's name and labels, each of
    the nine is incremented by some call of one of the six hooks, and
    a hook call that returns has added its amount (1, or the byte
    count converted to float64) to the total, a uint64, of a counter
    of the family matching the event and left the other eight vectors
    as they were. *)
Theorem C5_nine_families :
  length families = 9%nat /\ NoDup families /\ (forall f, In f families) /\
  (forall m m' : Metrics,
     Metrics_cfg m = Metrics_cfg m' -> (forall f, vec f m = vec f m') -> m = m') /\
  (forall namespace (opts : list Opt) (h : heap) m h',
     NewMetrics namespace opts h = Ok (m, h') ->
     forall f,
       vec f m
       = {| desc := {| fqName := BuildFQName namespace "" (family_name f);
                       help := family_help f;
                       variableLabels := family_labels f |};
            children := ∅ |}) /\
  (forall f m,
     wf m ->
     exists ev m',
       handle ev m = Ok (tt, m') /\
       total f (labels_of ev) m' = wrap64 (total f (labels_of ev) m + 1)) /\
  (forall ev m m',
     wf m -> handle ev m = Ok (tt, m') ->
     total (family_of ev) (labels_of ev) m'
     = wrap64 (total (family_of ev) (labels_of ev) m + amount_of ev) /\
     forall f, f <> family_of ev -> vec f m' = vec f m).
Proof.
  split; [reflexivity |]. split; [apply NoDup_families |].
  split; [apply families_complete |]. split; [apply Metrics_ext |].
  split; [| split].
  - intros namespace opts h m h' Hrun f.
    rewrite (NewMetrics_Ok_built _ _ _ _ _ Hrun), vec_built.
    destruct f; reflexivity.
  - intros f m Hwf.
    assert (Hev : exists ev, family_of ev = f /\ topic_valid ev = true /\
                             amount_of ev = 1).
    { destruct f;
        [ exists (BrokerConnect (broker 0) 0 None None)
        | exists (BrokerConnect (broker 0) 0 None (Some "refused"))
        | exists (BrokerDisconnect (broker 0) None)
        | exists (BrokerWrite (broker 0) 0 0 0 0 (Some "EOF"))
        | exists (BrokerWrite (broker 0) 0 1 0 0 None)
        | exists (BrokerRead (broker 0) 0 0 0 0 (Some "EOF"))
        | exists (BrokerRead (broker 0) 0 1 0 0 None)
        | exists (ProduceBatchWritten (broker 0) "orders" 0 (produced 1))
        | exists (FetchBatchRead (broker 0) "orders" 0 (fetched 1)) ];
        repeat split; reflexivity. }
    destruct Hev as (ev & <- & Hvalid & Hone).
    destruct (handle_effect ev m Hwf Hvalid) as (m' & Hrun & _ & _ & Hsame & _);
      [rewrite Hone; lia |].
    exists ev, m'. split; [exact Hrun |]. rewrite Hsame, Hone. reflexivity.
  - intros ev m m' Hwf Hrun.
    apply handle_Ok_inv in Hrun as (_ & _ & ->); [| exact Hwf].
    split; [apply total_update |].
    intros f Hne. apply vec_update_ne. congruence.
Qed.

(** C9, amended: called with options other than Registry, for a
    namespace under which the nine names are valid metric names (and,
    when the auxiliary collectors are enabled, their names are valid
    too and all names are distinct),
    NewMetrics makes a registry at a location not in use before,
    registers into it the auxiliary collectors (when enabled) and then
    the nine families, and returns an aggregator bound to it; a family
    is registered as namespace_family when the namespace is not empty
    and as the bare family name when it is.  Whatever the options, when
    the registry the configuration ends up with is one that was
    supplied and already holds the name of one of the nine families,
    NewMetrics panics and returns no aggregator. *)
Theorem C9_registration :
  (forall namespace (opts : list Opt) (h : heap),
     let l := fresh (dom h) in
     let c := configure (Some l) opts in
     let expected := concat (registrations c namespace) in
     Forall keeps_registry opts ->
     forallb IsValidMetricName expected = true ->
     (goCollectors c = true -> distinct expected = true) ->
     exists m,
       NewMetrics namespace opts h = Ok (m, <[l := {| names := expected |}]> h) /\
       Metrics_Registry m = Some l /\
       h !! l = None /\
       expected
       = ((if goCollectors c
           then (ProcessCollectorDescs ++ GoCollectorDescs)%list else [])
          ++ map (fq namespace) families)%list /\
       forall f,
         In (fq namespace f) expected /\
         fqName (desc (vec f m)) = fq namespace f /\
         fq namespace f
         = if String.eqb namespace "" then family_name f
           else namespace +:+ "_" +:+ family_name f)
  /\
  (forall namespace (opts : list Opt) (h : heap) (l : loc) r f,
     reg (configure (Some (fresh (dom h))) opts) = Some l ->
     h !! l = Some r ->
     In (fq namespace f) (names r) ->
     exists msg, NewMetrics namespace opts h = Panic msg).
Proof.
  split.
  - intros namespace opts h l c expected Hopts Hvalid Hgo.
    assert (Hdist : distinct expected = true).
    { destruct (goCollectors c) eqn:Hc; [apply Hgo; reflexivity |].
      unfold expected. rewrite concat_registrations, Hc. apply distinct_fq. }
    assert (Hfresh : h !! l = None)
      by (apply not_elem_of_dom, is_fresh).
    exists (built c namespace). split; [| split; [| split; [| split]]].
    + rewrite NewMetrics_unfold. fold l. fold c.
      assert (Hreg : reg c = Some l) by (apply configure_keeps_registry, Hopts).
      rewrite Hreg.
      rewrite (register_all_Ok l _ _ {| names := [] |});
        [ | apply lookup_insert_eq | exact Hvalid | exact Hdist ].
      simpl. rewrite insert_insert_eq. reflexivity.
    + unfold Metrics_Registry. simpl. apply configure_keeps_registry, Hopts.
    + exact Hfresh.
    + apply concat_registrations.
    + intros f. split; [| split].
      * unfold expected. rewrite concat_registrations.
        apply in_or_app. right. apply in_map, families_complete.
      * rewrite vec_built. reflexivity.
      * apply fq_spec.
  - intros namespace opts h l r f Hreg Hl Hin.
    rewrite NewMetrics_unfold. cbv zeta. rewrite Hreg.
    assert (Hfresh : h !! fresh (dom h) = None)
      by (apply not_elem_of_dom, is_fresh).
    assert (Hne : fresh (dom h) <> l) by congruence.
    destruct (register_all_collision l
                (registrations (configure (Some (fresh (dom h))) opts) namespace)
                (<[fresh (dom h) := {| names := [] |}]> h) r (fq namespace f))
      as [msg Hpanic].
    + rewrite lookup_insert_ne by assumption. exact Hl.
    + exact Hin.
    + rewrite concat_registrations. apply in_or_app. right.
      apply in_map, families_complete.
    + rewrite Hpanic. eauto.
Qed.

End NewMetricsFacts.

(** [kafka] is what [NewMetrics] returns, and the scenario of the
    spec plays out on it as expected. *)
Lemma NewMetrics_kafka :
  @NewMetrics client_golang "kafka" [] ∅
  = Ok (kafka, {[ 1%positive := {| names := map (fq "kafka") families |} ]}).
Proof. vm_compute. reflexivity. Qed.

Example scenario :
  exists m,
    replay [BrokerConnect (broker 1) 0 None None;
            BrokerConnect (broker 2) 0 None (Some "connection refused");
            BrokerWrite (broker 1) 0 500 0 0 None;
            FetchBatchRead (broker 1) "orders" 0 (fetched 1000)] kafka
    = Ok (tt, m) /\
    value connects_total ["1"] m = 1 /\
    value connect_errors_total ["2"] m = 1 /\
    value write_bytes_total ["1"] m = 500 /\
    value fetch_bytes_total ["1"; "orders"] m = 1000 /\
    map (fun f => size (children (vec f m))) families
    = [1; 1; 0; 0; 1; 0; 0; 0; 1]%nat.
Proof.
  eexists. split; [vm_compute; reflexivity |].
  repeat split; vm_compute; reflexivity.
Qed.

(** C5, as stated, fails: the registry made by NewMetrics for the
    namespace "kafka" holds nine names, not eight, and the struct
    returned holds the ninth vector, disconnects_total. *)
Lemma C5_counterexample :
  exists h r,
    @NewMetrics client_golang "kafka" [] ∅ = Ok (kafka, h) /\
    h !! 1%positive = Some r /\
    length (names r) <> 8%nat /\
    In "kafka_disconnects_total" (names r) /\
    fqName (desc (disconnects kafka)) = "kafka_disconnects_total".
Proof.
  exists {[ 1%positive := {| names := map (fq "kafka") families |} ]},
         {| names := map (fq "kafka") families |}.
  split; [vm_compute; reflexivity |].
  split; [vm_compute; reflexivity |].
  split; [vm_compute; discriminate |].
  split; [vm_compute; tauto | reflexivity].
Qed.

Lemma C5_witness :
  @NewMetrics client_golang "kafka" [] ∅
  = Ok (kafka, {[ 1%positive := {| names := map (fq "kafka") families |} ]}) /\
  fqName (desc (vec disconnects_total kafka)) = "kafka_disconnects_total" /\
  wf kafka /\
  exists m',
    handle (BrokerDisconnect (broker 1) None) kafka = Ok (tt, m') /\
    total disconnects_total ["1"] m'
    = wrap64 (total disconnects_total ["1"] kafka + 1).
Proof.
  assert (Hrun : @NewMetrics client_golang "kafka" [] ∅
                 = Ok (kafka, {[ 1%positive := {| names := map (fq "kafka") families |} ]}))
    by (vm_compute; reflexivity).
  assert (Hcall : handle (BrokerDisconnect (broker 1) None) kafka
                  = Ok (tt, update disconnects_total ["1"] 1 kafka))
    by (vm_compute; reflexivity).
  destruct (@C5_nine_families client_golang)
    as (_ & _ & _ & _ & Hnew & _ & Hhook).
  split; [exact Hrun |].
  split; [rewrite (Hnew _ _ _ _ _ Hrun disconnects_total); reflexivity |].
  split; [apply wf_kafka |].
  eexists. split; [exact Hcall |].
  exact (proj1 (Hhook _ _ _ wf_kafka Hcall)).
Defined.

(** C9, as stated, fails twice with the classic name rule: for the
    empty namespace the families are registered under their bare
    names, without a leading underscore, and for the namespace
    "my-app" construction panics although no registry was supplied. *)
Lemma C9_counterexample :
  (exists m h r,
     @NewMetrics client_golang "" [] ∅ = Ok (m, h) /\
     h !! 1%positive = Some r /\
     names r <> map (fun f => "" +:+ "_" +:+ family_name f) families /\
     names r = map family_name families)
  /\ returns (@NewMetrics client_golang "my-app" [] ∅) = false.
Proof.
  split; [| vm_compute; reflexivity].
  exists (built (configure (Some 1%positive) []) ""),
         {[ 1%positive := {| names := map family_name families |} ]},
         {| names := map family_name families |}.
  split; [vm_compute; reflexivity |].
  split; [vm_compute; reflexivity |].
  split; [vm_compute; discriminate | reflexivity].
Qed.

Lemma C9_witness :
  (Forall keeps_registry [GoCollectors; HandlerOpts promhttp.zero] /\
   exists m h,
     @NewMetrics client_golang "kafka" [GoCollectors; HandlerOpts promhttp.zero] ∅
     = Ok (m, h) /\
     Metrics_Registry m = Some 1%positive)
  /\
  (exists msg,
     @NewMetrics client_golang "kafka" [Registry (Some 7%positive)]
       {[ 7%positive := {| names := ["kafka_read_bytes_total"] |} ]}
     = Panic msg).
Proof.
  assert (Hopts : Forall keeps_registry [GoCollectors; HandlerOpts promhttp.zero]).
  { constructor; [left; reflexivity |].
    constructor; [right; eexists; reflexivity | constructor]. }
  destruct (@C9_registration client_golang) as [Hdefault Hsupplied].
  split.
  - split; [exact Hopts |].
    destruct (Hdefault "kafka" [GoCollectors; HandlerOpts promhttp.zero] ∅ Hopts)
      as (m & Hrun & Hreg & _); [vm_compute; reflexivity .. |].
    exists m. eexists. split; [exact Hrun | exact Hreg].
  - apply (Hsupplied "kafka" [Registry (Some 7%positive)]
             {[ 7%positive := {| names := ["kafka_read_bytes_total"] |} ]}
             7%positive {| names := ["kafka_read_bytes_total"] |} read_bytes_total).
    + reflexivity.
    + vm_compute. reflexivity.
    + vm_compute. tauto.
Defined.


(** * Further properties

    What follows goes beyond single calls: runs of events, the option
    loop, and construction as a whole. *)

(** ** Runs of events *)

Section RunFacts.
Implicit Types (m : Metrics) (ev : Event) (evs : list Event) (f : family).

Lemma replay_cons ev evs m :
  replay (ev :: evs) m
  = match handle ev m with
    | Ok (_, m1) => replay evs m1
    | Panic msg => Panic msg
    end.
Proof.
  simpl. unfold bind. destruct (handle ev m) as [[[] m1] | msg]; reflexivity.
Qed.

Lemma accepted_spec ev :
  accepted ev = true <-> topic_valid ev = true /\ 0 <= amount_of ev.
Proof.
  unfold accepted, amount_of. rewrite andb_true_iff.
  destruct (bytes_of ev) as [n|].
  - pose proof (float64_sign n) as [Hp Hn]. rewrite Z.leb_le.
    split; intros [Hv Hx]; (split; [exact Hv |]); [auto | lia].
  - split; intros [Hv _]; (split; [exact Hv |]); [lia | reflexivity].
Qed.

(** A call returns exactly when it is accepted, and then it is one
    update. *)
Lemma handle_accepted ev m :
  wf m ->
  state_after (handle ev m)
  = if accepted ev
    then Some (update (family_of ev) (labels_of ev) (amount_of ev) m)
    else None.
Proof.
  intros Hwf. destruct (accepted ev) eqn:Hacc.
  - apply accepted_spec in Hacc as [Hv Hx].
    rewrite handle_Ok by assumption. reflexivity.
  - destruct (handle ev m) as [[[] m'] | msg] eqn:Hrun; [| reflexivity].
    apply handle_Ok_inv in Hrun as (Hv & Hx & _); [| exact Hwf].
    assert (accepted ev = true) by (apply accepted_spec; auto). congruence.
Qed.

Lemma handle_accepted_Ok ev m :
  wf m -> accepted ev = true ->
  handle ev m = Ok (tt, update (family_of ev) (labels_of ev) (amount_of ev) m).
Proof.
  intros Hwf Hacc. apply accepted_spec in Hacc as [Hv Hx].
  apply handle_Ok; assumption.
Qed.

Lemma handle_rejected ev m :
  wf m -> accepted ev = false -> exists msg, handle ev m = Panic msg.
Proof.
  intros Hwf Hacc. pose proof (handle_accepted ev m Hwf) as Hst.
  rewrite Hacc in Hst.
  destruct (handle ev m) as [[[] m'] | msg]; [discriminate | eauto].
Qed.

(** Two additions to a vector can be made in either order. *)
Lemma add_at_comm (l1 l2 : list string) x1 x2 (v : CounterVec) :
  add_at l1 x1 (add_at l2 x2 v) = add_at l2 x2 (add_at l1 x1 v).
Proof.
  unfold add_at, with_children, counter_at; simpl. f_equal.
  destruct (decide (l1 = l2)) as [<- | Hne].
  - rewrite !lookup_insert_eq, !insert_insert_eq. simpl. f_equal.
    apply AddUint64_comm.
  - rewrite !lookup_insert_ne by congruence.
    apply insert_insert_ne. exact Hne.
Qed.

Lemma set_vec_set_vec f (v1 v2 : CounterVec) m :
  set_vec f v1 (set_vec f v2 m) = set_vec f v1 m.
Proof. destruct f; reflexivity. Qed.

Lemma update_comm f1 l1 x1 f2 l2 x2 m :
  update f1 l1 x1 (update f2 l2 x2 m) = update f2 l2 x2 (update f1 l1 x1 m).
Proof.
  apply Metrics_ext; [reflexivity |]. intros f. unfold update.
  destruct (decide (f1 = f2)) as [<- | Hne].
  - rewrite !vec_set_vec, !set_vec_set_vec, add_at_comm. reflexivity.
  - rewrite (vec_set_vec_ne f2 f1), (vec_set_vec_ne f1 f2) by congruence.
    destruct (decide (f = f1)) as [-> | H1];
      [| destruct (decide (f = f2)) as [-> | H2]].
    + rewrite vec_set_vec, vec_set_vec_ne, vec_set_vec by congruence.
      reflexivity.
    + rewrite vec_set_vec_ne, vec_set_vec, vec_set_vec by congruence.
      reflexivity.
    + rewrite !vec_set_vec_ne by congruence. reflexivity.
Qed.

(** Adding twice at one tuple is adding the sum. *)
Lemma add_at_add_at (l : list string) x y (v : CounterVec) :
  add_at l y (add_at l x v) = add_at l (x + y) v.
Proof.
  unfold add_at, with_children, counter_at; simpl. f_equal.
  rewrite lookup_insert_eq, insert_insert_eq. simpl. f_equal.
  apply AddUint64_AddUint64.
Qed.

Lemma update_update f l x y m :
  update f l y (update f l x m) = update f l (x + y) m.
Proof.
  unfold update. rewrite vec_set_vec, set_vec_set_vec, add_at_add_at.
  reflexivity.
Qed.

(** The same accepted call made [k] times over leaves what one
    addition of [k] times its amount leaves. *)
Lemma replay_repeat ev (k : Z) m :
  wf m -> accepted ev = true -> 0 < k ->
  replay (repeat ev (Z.to_nat k)) m
  = Ok (tt, update (family_of ev) (labels_of ev) (k * amount_of ev) m).
Proof.
  intros Hwf Hacc Hk.
  assert (Hn : exists n, k = Z.of_nat (S n))
    by (exists (Z.to_nat (k - 1)); lia).
  destruct Hn as [n ->]. rewrite Nat2Z.id. clear Hk.
  revert m Hwf. induction n as [| n IH]; intros m Hwf.
  - cbn [repeat]. rewrite replay_cons, handle_accepted_Ok by assumption.
    cbn [replay ret].
    replace (Z.of_nat 1 * amount_of ev) with (amount_of ev) by lia.
    reflexivity.
  - change (repeat ev (S (S n))) with (ev :: repeat ev (S n)).
    rewrite replay_cons, handle_accepted_Ok by assumption.
    rewrite IH by (apply wf_update, Hwf).
    rewrite update_update.
    replace (amount_of ev + Z.of_nat (S n) * amount_of ev)
      with (Z.of_nat (S (S n)) * amount_of ev) by lia.
    reflexivity.
Qed.

(** A run returns exactly when every call of it is accepted. *)
Lemma replay_returns evs m :
  wf m -> returns (replay evs m) = forallb accepted evs.
Proof.
  revert m. induction evs as [| ev evs IH]; intros m Hwf; [reflexivity |].
  rewrite replay_cons. cbn [forallb].
  destruct (accepted ev) eqn:Hacc.
  - rewrite handle_accepted_Ok by assumption.
    apply IH, wf_update, Hwf.
  - destruct (handle_rejected ev m Hwf Hacc) as [msg ->]. reflexivity.
Qed.

Lemma replay_Ok_inv ev evs m m' :
  wf m -> replay (ev :: evs) m = Ok (tt, m') ->
  accepted ev = true /\
  replay evs (update (family_of ev) (labels_of ev) (amount_of ev) m)
  = Ok (tt, m').
Proof.
  intros Hwf. rewrite replay_cons.
  destruct (handle ev m) as [[[] m1] | msg] eqn:Hrun; [| discriminate].
  apply handle_Ok_inv in Hrun as (Hv & Hx & ->); [| exact Hwf].
  intros Hrest. split; [apply accepted_spec; auto | exact Hrest].
Qed.

(** What a run that returns adds at a tuple is not negative. *)
Lemma replay_amounts_nonneg evs m m' f lvs :
  wf m -> replay evs m = Ok (tt, m') ->
  0 <= sum (map (amount_at f lvs) evs).
Proof.
  revert m. induction evs as [| ev evs IH]; intros m Hwf Hrun; [simpl; lia |].
  apply replay_Ok_inv in Hrun as [Hacc Hrest]; [| exact Hwf].
  apply accepted_spec in Hacc as [_ Hx].
  specialize (IH _ (wf_update _ _ _ _ Hwf) Hrest).
  cbn [map sum fold_right]. fold (sum (map (amount_at f lvs) evs)).
  unfold amount_at at 1. case_bool_decide; lia.
Qed.

(** The total a run that returns leaves at a tuple: the starting
    total plus the amounts added there, wrapped around. *)
Lemma replay_total evs m m' f lvs :
  wf m -> replay evs m = Ok (tt, m') ->
  total f lvs m' = wrap64 (total f lvs m + sum (map (amount_at f lvs) evs)).
Proof.
  revert m. induction evs as [| ev evs IH]; intros m Hwf Hrun.
  - injection Hrun as <-. simpl. rewrite Z.add_0_r.
    symmetry. apply wrap64_small, total_range.
  - apply replay_Ok_inv in Hrun as [_ Hrest]; [| exact Hwf].
    rewrite (IH _ (wf_update _ _ _ _ Hwf) Hrest).
    cbn [map sum fold_right]. fold (sum (map (amount_at f lvs) evs)).
    unfold amount_at at 2. case_bool_decide as Htarget.
    + injection Htarget as <- <-. rewrite total_update. unfold wrap64.
      rewrite Z.add_mod_idemp_l by discriminate. f_equal; lia.
    + rewrite total_update_ne by congruence. f_equal; lia.
Qed.

End RunFacts.

(** A counter that has counted to 2^53: 2^53 connects to node 1 leave
    the aggregator [kafka] with connects_total there, when they are
    made without error, and with connect_errors_total there, when they
    are made with one; 2^53 writes with an error do the same to
    write_errors_total. *)
Lemma counted_to_2_53 :
  replay (repeat (BrokerConnect (broker 1) 0 None None) (Z.to_nat (2 ^ 53)))
    kafka
  = Ok (tt, update connects_total ["1"] (2 ^ 53) kafka) /\
  replay (repeat (BrokerConnect (broker 1) 0 None (Some "connection refused"))
            (Z.to_nat (2 ^ 53))) kafka
  = Ok (tt, update connect_errors_total ["1"] (2 ^ 53) kafka) /\
  replay (repeat (BrokerWrite (broker 1) 0 0 0 0 (Some "EOF"))
            (Z.to_nat (2 ^ 53))) kafka
  = Ok (tt, update write_errors_total ["1"] (2 ^ 53) kafka).
Proof.
  split; [| split].
  - rewrite (replay_repeat (BrokerConnect (broker 1) 0 None None) (2 ^ 53)
               kafka wf_kafka eq_refl ltac:(by_eval)).
    vm_compute. reflexivity.
  - rewrite (replay_repeat
               (BrokerConnect (broker 1) 0 None (Some "connection refused"))
               (2 ^ 53) kafka wf_kafka eq_refl ltac:(by_eval)).
    vm_compute. reflexivity.
  - rewrite (replay_repeat (BrokerWrite (broker 1) 0 0 0 0 (Some "EOF"))
               (2 ^ 53) kafka wf_kafka eq_refl ltac:(by_eval)).
    vm_compute. reflexivity.
Qed.

Section RunProperties.
Implicit Types (m : Metrics) (ev : Event) (evs : list Event) (f : family).

(** X1: on an aggregator between calls, OnBrokerDisconnect always
    returns; it adds 1 to the total of disconnects_total at the node
    of the call, wrapping around at 2^64, which shows as exactly 1
    more in the value as long as that stays within 2^53; and every
    other family and every other label tuple keeps its value. *)
Theorem X1_disconnect_counts_one m (meta : kgo.BrokerMetadata) (conn : net.Conn) :
  wf m ->
  exists m',
    OnBrokerDisconnect meta conn m = Ok (tt, m') /\
    total disconnects_total [node meta] m'
    = wrap64 (total disconnects_total [node meta] m + 1) /\
    (value disconnects_total [node meta] m + 1 <= 2 ^ 53 ->
     value disconnects_total [node meta] m'
     = value disconnects_total [node meta] m + 1) /\
    forall f lvs, (f, lvs) <> (disconnects_total, [node meta]) ->
                  value f lvs m' = value f lvs m.
Proof.
  intros Hwf.
  destruct (handle_effect (BrokerDisconnect meta conn) m Hwf eq_refl)
    as (m' & Hrun & _ & _ & Htotal & Hsame & Hother).
  { unfold amount_of; simpl. lia. }
  exists m'. split; [exact Hrun |]. split; [exact Htotal |].
  split; [exact Hsame | exact Hother].
Qed.

Lemma X1_witness :
  wf kafka /\
  exists m',
    OnBrokerDisconnect (broker 4) None kafka = Ok (tt, m') /\
    value disconnects_total ["4"] m' = value disconnects_total ["4"] kafka + 1.
Proof.
  split; [apply wf_kafka |].
  destruct (X1_disconnect_counts_one kafka (broker 4) None wf_kafka)
    as (m' & Hrun & _ & Hv & _).
  exists m'. split; [exact Hrun |]. apply Hv. by_eval.
Defined.

(** X2: a run of hook calls on an aggregator returns exactly when
    every call of it is accepted (valid UTF-8 topic, no negative byte
    count on a path that adds it); and when it returns, the total of
    every family at every label tuple is its starting total plus the
    amounts of the calls that target that tuple, wrapped around at
    2^64: each call is counted once, at one place.  The value moves by
    the sum of those amounts as long as it stays within 2^53. *)
Theorem X2_runs_add_up evs m :
  wf m ->
  returns (replay evs m) = forallb accepted evs /\
  forall m', replay evs m = Ok (tt, m') ->
    forall f lvs,
      total f lvs m'
      = wrap64 (total f lvs m + sum (map (amount_at f lvs) evs)) /\
      (value f lvs m + sum (map (amount_at f lvs) evs) <= 2 ^ 53 ->
       value f lvs m' = value f lvs m + sum (map (amount_at f lvs) evs)).
Proof.
  intros Hwf. split; [apply replay_returns, Hwf |].
  intros m' Hrun f lvs.
  pose proof (replay_total evs m m' f lvs Hwf Hrun) as Htotal.
  split; [exact Htotal |]. intros Hsum.
  change (value f lvs m') with (float64 (total f lvs m')). rewrite Htotal.
  apply float64_add_exact;
    [apply total_range | eapply replay_amounts_nonneg; eassumption | exact Hsum].
Qed.

Lemma X2_witness :
  wf kafka /\
  exists m',
    replay [BrokerWrite (broker 1) 0 500 0 0 None;
            BrokerWrite (broker 2) 0 7 0 0 None;
            BrokerWrite (broker 1) 0 9 0 0 (Some "EOF");
            BrokerWrite (broker 1) 0 20 0 0 None] kafka = Ok (tt, m') /\
    value write_bytes_total ["1"] m' = 520 /\
    value write_errors_total ["1"] m' = 1.
Proof.
  split; [apply wf_kafka |].
  destruct (X2_runs_add_up
              [BrokerWrite (broker 1) 0 500 0 0 None;
               BrokerWrite (broker 2) 0 7 0 0 None;
               BrokerWrite (broker 1) 0 9 0 0 (Some "EOF");
               BrokerWrite (broker 1) 0 20 0 0 None] kafka wf_kafka)
    as [Hret Hsum].
  destruct (replay _ kafka) as [[[] m'] | msg] eqn:Hrun;
    [| vm_compute in Hret; discriminate Hret].
  exists m'. split; [reflexivity |].
  split.
  - destruct (Hsum m' eq_refl write_bytes_total ["1"]) as [_ Hv].
    rewrite Hv; [vm_compute; reflexivity | by_eval].
  - destruct (Hsum m' eq_refl write_errors_total ["1"]) as [_ Hv].
    rewrite Hv; [vm_compute; reflexivity | by_eval].
Defined.

(** X3: the aggregator a run leaves behind does not depend on the
    order of its calls: two runs that are permutations of each other,
    from the same state, both return with the same aggregator or both
    panic. *)
Theorem X3_order_does_not_matter evs evs' m :
  wf m -> Permutation evs evs' ->
  state_after (replay evs m) = state_after (replay evs' m).
Proof.
  intros Hwf Hperm. revert m Hwf.
  induction Hperm as [| ev evs evs' _ IH | e1 e2 evs | evs1 evs2 evs3 _ IH1 _ IH2];
    intros m Hwf.
  - reflexivity.
  - rewrite !replay_cons.
    destruct (accepted ev) eqn:Hacc.
    + rewrite handle_accepted_Ok by assumption. apply IH, wf_update, Hwf.
    + destruct (handle_rejected ev m Hwf Hacc) as [msg ->]. reflexivity.
  - rewrite !replay_cons.
    destruct (accepted e1) eqn:H1, (accepted e2) eqn:H2.
    + rewrite (handle_accepted_Ok e1), (handle_accepted_Ok e2) by assumption.
      rewrite !replay_cons.
      rewrite (handle_accepted_Ok e1), (handle_accepted_Ok e2)
        by (assumption || apply wf_update, Hwf).
      rewrite update_comm. reflexivity.
    + rewrite (handle_accepted_Ok e1) by assumption.
      destruct (handle_rejected e2 m Hwf H2) as [msg ->].
      rewrite replay_cons.
      destruct (handle_rejected e2 _ (wf_update (family_of e1) (labels_of e1)
                                        (amount_of e1) m Hwf) H2) as [msg' ->].
      reflexivity.
    + rewrite (handle_accepted_Ok e2) by assumption.
      destruct (handle_rejected e1 m Hwf H1) as [msg ->].
      rewrite replay_cons.
      destruct (handle_rejected e1 _ (wf_update (family_of e2) (labels_of e2)
                                        (amount_of e2) m Hwf) H1) as [msg' ->].
      reflexivity.
    + destruct (handle_rejected e1 m Hwf H1) as [msg1 ->].
      destruct (handle_rejected e2 m Hwf H2) as [msg2 ->]. reflexivity.
  - rewrite IH1 by assumption. apply IH2, Hwf.
Qed.

Lemma X3_witness :
  wf kafka /\
  Permutation
    [BrokerConnect (broker 1) 0 None None;
     BrokerWrite (broker 1) 0 500 0 0 None;
     FetchBatchRead (broker 1) "orders" 0 (fetched 1000)]
    [FetchBatchRead (broker 1) "orders" 0 (fetched 1000);
     BrokerConnect (broker 1) 0 None None;
     BrokerWrite (broker 1) 0 500 0 0 None] /\
  state_after
    (replay [BrokerConnect (broker 1) 0 None None;
             BrokerWrite (broker 1) 0 500 0 0 None;
             FetchBatchRead (broker 1) "orders" 0 (fetched 1000)] kafka)
  = state_after
      (replay [FetchBatchRead (broker 1) "orders" 0 (fetched 1000);
               BrokerConnect (broker 1) 0 None None;
               BrokerWrite (broker 1) 0 500 0 0 None] kafka).
Proof.
  assert (Hperm : Permutation
    [BrokerConnect (broker 1) 0 None None;
     BrokerWrite (broker 1) 0 500 0 0 None;
     FetchBatchRead (broker 1) "orders" 0 (fetched 1000)]
    [FetchBatchRead (broker 1) "orders" 0 (fetched 1000);
     BrokerConnect (broker 1) 0 None None;
     BrokerWrite (broker 1) 0 500 0 0 None]).
  { apply Permutation_sym.
    apply (Permutation_cons_append
             [BrokerConnect (broker 1) 0 None None;
              BrokerWrite (broker 1) 0 500 0 0 None]). }
  split; [apply wf_kafka |]. split; [exact Hperm |].
  exact (X3_order_does_not_matter _ _ kafka wf_kafka Hperm).
Defined.

(** X4: over a run that returns, whatever the arguments of its calls,
    a counter whose total the run does not take past 2^64 - 1 has
    neither a smaller total nor a smaller value at the end than at the
    start: a call that would take a counter down panics instead, and
    rounding the total to a double keeps the order. *)
Theorem X4_runs_never_decrease evs m m' :
  wf m -> replay evs m = Ok (tt, m') ->
  forall f lvs,
    total f lvs m + sum (map (amount_at f lvs) evs) < 2 ^ 64 ->
    total f lvs m <= total f lvs m' /\ value f lvs m <= value f lvs m'.
Proof.
  intros Hwf Hrun f lvs Hsum.
  pose proof (replay_total evs m m' f lvs Hwf Hrun) as Htotal.
  pose proof (replay_amounts_nonneg evs m m' f lvs Hwf Hrun) as Hnn.
  pose proof (total_range f lvs m) as Hr.
  rewrite wrap64_small in Htotal by lia.
  split; [lia |].
  change (float64 (total f lvs m) <= float64 (total f lvs m')).
  apply float64_mono. lia.
Qed.

Lemma X4_witness :
  wf kafka /\
  total read_bytes_total ["1"] kafka
  + sum (map (amount_at read_bytes_total ["1"])
           [BrokerRead (broker 1) 0 64 0 0 None;
            BrokerRead (broker 1) 0 (-5) 0 0 (Some "EOF")]) < 2 ^ 64 /\
  exists m',
    replay [BrokerRead (broker 1) 0 64 0 0 None;
            BrokerRead (broker 1) 0 (-5) 0 0 (Some "EOF")] kafka = Ok (tt, m') /\
    total read_bytes_total ["1"] kafka <= total read_bytes_total ["1"] m' /\
    value read_bytes_total ["1"] kafka <= value read_bytes_total ["1"] m'.
Proof.
  assert (Hsum : total read_bytes_total ["1"] kafka
                 + sum (map (amount_at read_bytes_total ["1"])
                          [BrokerRead (broker 1) 0 64 0 0 None;
                           BrokerRead (broker 1) 0 (-5) 0 0 (Some "EOF")])
                 < 2 ^ 64)
    by (vm_compute; reflexivity).
  split; [apply wf_kafka |]. split; [exact Hsum |].
  assert (Hrun : exists m',
             replay [BrokerRead (broker 1) 0 64 0 0 None;
                     BrokerRead (broker 1) 0 (-5) 0 0 (Some "EOF")] kafka
             = Ok (tt, m'))
    by (eexists; vm_compute; reflexivity).
  destruct Hrun as [m' Hrun]. exists m'. split; [exact Hrun |].
  exact (X4_runs_never_decrease _ kafka m' wf_kafka Hrun
           read_bytes_total ["1"] Hsum).
Defined.

(** X5: brokers do not share counters: a run of calls none of which
    is about node x leaves every label tuple of node x, in every
    family, exactly as it was, absent or present.  Node identifiers
    that differ, seed brokers included, never meet in one label. *)
Theorem X5_nodes_are_isolated (x : Z) evs m m' :
  wf m ->
  Forall (fun ev => kgo.NodeID (meta_of ev) <> x) evs ->
  replay evs m = Ok (tt, m') ->
  forall f rest,
    children (vec f m') !! (strconv.Itoa x :: rest)
    = children (vec f m) !! (strconv.Itoa x :: rest).
Proof.
  revert m. induction evs as [| ev evs IH]; intros m Hwf Hnodes Hrun f rest.
  - injection Hrun as <-. reflexivity.
  - inversion Hnodes as [| ? ? Hev Hevs]; subst.
    apply replay_Ok_inv in Hrun as [_ Hrest]; [| exact Hwf].
    rewrite (IH _ (wf_update _ _ _ _ Hwf) Hevs Hrest).
    apply lookup_update_ne. intros [= _ Hl].
    apply Hev. apply Itoa_inj.
    destruct ev; injection Hl as Hl; exact Hl.
Qed.

Lemma X5_witness :
  wf kafka /\
  Forall (fun ev => kgo.NodeID (meta_of ev) <> MinInt32)
    [BrokerConnect (broker 1) 0 None None;
     BrokerWrite (broker (MinInt32 + 1)) 0 12 0 0 None] /\
  exists m',
    replay [BrokerConnect (broker 1) 0 None None;
            BrokerWrite (broker (MinInt32 + 1)) 0 12 0 0 None] kafka
    = Ok (tt, m') /\
    children (vec write_bytes_total m') !! ["-2147483648"] = None.
Proof.
  assert (Hnodes : Forall (fun ev => kgo.NodeID (meta_of ev) <> MinInt32)
                     [BrokerConnect (broker 1) 0 None None;
                      BrokerWrite (broker (MinInt32 + 1)) 0 12 0 0 None])
    by (repeat constructor; by_eval).
  assert (Hrun : exists m',
             replay [BrokerConnect (broker 1) 0 None None;
                     BrokerWrite (broker (MinInt32 + 1)) 0 12 0 0 None] kafka
             = Ok (tt, m'))
    by (eexists; vm_compute; reflexivity).
  split; [apply wf_kafka |]. split; [exact Hnodes |].
  destruct Hrun as [m' Hrun]. exists m'. split; [exact Hrun |].
  exact (X5_nodes_are_isolated MinInt32 _ kafka m' wf_kafka Hnodes Hrun
           write_bytes_total []).
Defined.

End RunProperties.

(** ** Label tuples, amounts and configuration *)

Section TupleFacts.
Implicit Types (m : Metrics) (ev : Event) (f : family) (v : CounterVec).

Lemma add_at_zero (lvs : list string) v :
  is_Some (children v !! lvs) -> add_at lvs 0 v = v.
Proof.
  intros [y Hy]. unfold add_at, with_children, counter_at.
  rewrite Hy. simpl. rewrite AddUint64_zero, (insert_id _ _ _ Hy).
  destruct v; reflexivity.
Qed.

Lemma set_vec_same f m : set_vec f (vec f m) m = m.
Proof. destruct f, m; reflexivity. Qed.

Lemma dom_add_at (lvs : list string) x v :
  dom (children (add_at lvs x v)) = {[ lvs ]} ∪ dom (children v).
Proof. unfold add_at, with_children; simpl. apply dom_insert_L. Qed.

(** The conversion to float64 is off by at most half a unit in the
    last place, which for an [int] is at most 512. *)
Lemma float64_error n : int_range n -> - 512 <= float64 n - n <= 512.
Proof.
  unfold int_range. intros Hn.
  destruct (Z.eq_dec n (- 2 ^ 63)) as [-> | Hmin]; [by_eval |].
  unfold float64.
  set (a := Z.abs n). set (e := Z.log2 a - 52).
  destruct (Z.leb_spec e 0) as [He | He]; [lia |].
  assert (Ha : 0 < a).
  { pose proof (Z.abs_nonneg n) as Hnn. fold a in Hnn.
    destruct (Z.eq_dec a 0) as [E | Hne]; [| lia].
    unfold e in He. rewrite E in He. simpl in He. lia. }
  assert (Hlog : Z.log2 a < 63).
  { apply Z.log2_lt_pow2; [exact Ha |]. unfold a.
    change (2 ^ 63) with 9223372036854775808 in *. lia. }
  assert (He10 : e <= 10) by (unfold e; lia).
  set (h := 2 ^ (e - 1)).
  assert (Hh : 0 < h <= 512).
  { unfold h. split; [apply Z.pow_pos_nonneg; lia |].
    change 512 with (2 ^ 9). apply Z.pow_le_mono_r; lia. }
  assert (HP : 2 ^ e = 2 * h).
  { unfold h. rewrite <- Z.pow_succ_r by lia. f_equal. lia. }
  rewrite !Z.shiftl_mul_pow2 by lia.
  rewrite Z.shiftr_div_pow2 by lia.
  rewrite Z.mul_1_l. fold h. rewrite HP.
  set (q := a / (2 * h)).
  pose proof (Z.div_mod a (2 * h) ltac:(lia)) as Hdm. fold q in Hdm.
  pose proof (Z.mod_pos_bound a (2 * h) ltac:(lia)) as Hr.
  set (r := a - q * (2 * h)).
  assert (Hrr : r = a mod (2 * h)) by (unfold r; lia).
  assert (Hsgn : n = Z.sgn n * a) by (unfold a; lia).
  assert (Hs1 : Z.sgn n = 1 \/ Z.sgn n = -1) by (unfold a in Ha; lia).
  clearbody r q h. clear He He10 Hlog HP e. clearbody a.
  destruct (Z.ltb_spec h r) as [H1 | H1]; simpl.
  - destruct Hs1 as [Hs | Hs]; rewrite Hs in *; nia.
  - destruct (Z.eqb_spec r h) as [H2 | H2]; simpl;
      [destruct (Z.odd q) |]; destruct Hs1 as [Hs | Hs]; rewrite Hs in *; nia.
Qed.

(** X6: label tuples are made on first use and stay: a hook call that
    returns leaves the set of label tuples of its target family as it
    was plus the tuple of the call, and the sets of the other families
    as they were; and a call that adds 0 to a tuple that is already
    there changes nothing at all. *)
Theorem X6_tuples_made_on_first_use ev m m' :
  wf m -> handle ev m = Ok (tt, m') ->
  (forall f,
     dom (children (vec f m'))
     = if decide (f = family_of ev)
       then {[ labels_of ev ]} ∪ dom (children (vec f m))
       else dom (children (vec f m))) /\
  (amount_of ev = 0 ->
   is_Some (children (vec (family_of ev) m) !! labels_of ev) -> m' = m).
Proof.
  intros Hwf Hrun.
  apply handle_Ok_inv in Hrun as (_ & _ & ->); [| exact Hwf]. split.
  - intros f. unfold update. destruct (decide (f = family_of ev)) as [-> | Hne].
    + rewrite vec_set_vec. apply dom_add_at.
    + rewrite vec_set_vec_ne by congruence. reflexivity.
  - intros Hzero Hthere. unfold update.
    rewrite Hzero, add_at_zero by exact Hthere. apply set_vec_same.
Qed.

Lemma X6_witness :
  wf kafka /\
  exists m',
    handle (BrokerWrite (broker 1) 0 0 0 0 None) kafka = Ok (tt, m') /\
    dom (children (vec write_bytes_total m')) = {[ ["1"] ]} /\
    value write_bytes_total ["1"] m' = 0.
Proof.
  split; [apply wf_kafka |].
  assert (Hrun : exists m',
             handle (BrokerWrite (broker 1) 0 0 0 0 None) kafka = Ok (tt, m'))
    by (eexists; vm_compute; reflexivity).
  destruct Hrun as [m' Hrun]. exists m'. split; [exact Hrun |].
  destruct (X6_tuples_made_on_first_use _ kafka m' wf_kafka Hrun) as [Hdom _].
  split.
  - rewrite (Hdom write_bytes_total). simpl.
    change (dom (children (vec write_bytes_total kafka)))
      with (dom (∅ : gmap (list string) uint64)).
    rewrite dom_empty_L. apply (right_id_L ∅ (∪)).
  - vm_compute in Hrun. injection Hrun as <-. vm_compute. reflexivity.
Defined.

(** X7: the byte counts are taken in accurately over the whole range
    of an [int]: a hook call that adds a byte count n with
    0 <= n < 2^63, on a valid topic if it has one, returns, and what
    it adds to the total of its counter is an integer from 0 to 2^63
    within 512 of n, and is n itself up to 2^53. *)
Theorem X7_byte_counts_within_512 ev (n : Z) m :
  wf m -> topic_valid ev = true -> bytes_of ev = Some n ->
  0 <= n -> int_range n ->
  exists m' d,
    handle ev m = Ok (tt, m') /\
    total (family_of ev) (labels_of ev) m'
    = wrap64 (total (family_of ev) (labels_of ev) m + d) /\
    n - 512 <= d <= n + 512 /\ 0 <= d <= 2 ^ 63 /\
    (n <= 2 ^ 53 -> d = n).
Proof.
  intros Hwf Hvalid Hbytes Hn Hint.
  assert (Hamount : amount_of ev = float64 n)
    by (unfold amount_of; rewrite Hbytes; reflexivity).
  assert (Hx : 0 <= amount_of ev)
    by (rewrite Hamount; apply float64_sign, Hn).
  exists (update (family_of ev) (labels_of ev) (amount_of ev) m), (float64 n).
  split; [apply handle_Ok; assumption |].
  split; [rewrite total_update, Hamount; reflexivity |].
  split; [pose proof (float64_error n Hint); lia |].
  split.
  - split; [rewrite <- Hamount; exact Hx |].
    change (2 ^ 63) with (float64 (2 ^ 63 - 1)).
    apply float64_mono. unfold int_range in Hint. lia.
  - intros Hsmall. apply float64_exact. lia.
Qed.

Lemma X7_witness :
  wf kafka /\
  topic_valid (ProduceBatchWritten (broker 1) "orders" 0 (produced (2 ^ 62 + 1)))
  = true /\
  0 <= 2 ^ 62 + 1 /\ int_range (2 ^ 62 + 1) /\
  exists m' d,
    handle (ProduceBatchWritten (broker 1) "orders" 0 (produced (2 ^ 62 + 1))) kafka
    = Ok (tt, m') /\
    (2 ^ 62 + 1) - 512 <= d <= (2 ^ 62 + 1) + 512.
Proof.
  split; [apply wf_kafka |]. split; [reflexivity |].
  split; [by_eval |]. split; [by_eval |].
  destruct (X7_byte_counts_within_512
              (ProduceBatchWritten (broker 1) "orders" 0 (produced (2 ^ 62 + 1)))
              (2 ^ 62 + 1) kafka wf_kafka eq_refl eq_refl)
    as (m' & d & Hrun & _ & Hd & _); [by_eval | by_eval |].
  exists m', d. split; [exact Hrun | exact Hd].
Defined.

(** X8: the hooks never touch the configuration: after any run that
    returns, Registry() gives the registry it gave before, Handler()
    the handler it gave before, and every vector still has the
    descriptor (name, help, label names) it was made with. *)
Theorem X8_configuration_is_stable (evs : list Event) m m' :
  wf m -> replay evs m = Ok (tt, m') ->
  Metrics_Registry m' = Metrics_Registry m /\
  Metrics_Handler m' = Metrics_Handler m /\
  forall f, desc (vec f m') = desc (vec f m).
Proof.
  revert m. induction evs as [| ev evs IH]; intros m Hwf Hrun.
  - injection Hrun as <-. auto.
  - apply replay_Ok_inv in Hrun as [_ Hrest]; [| exact Hwf].
    destruct (IH _ (wf_update _ _ _ _ Hwf) Hrest) as (Hreg & Hh & Hdesc).
    split; [exact Hreg |]. split; [exact Hh |].
    intros f. rewrite Hdesc. unfold update.
    destruct (decide (family_of ev = f)) as [<- | Hne].
    + rewrite vec_set_vec. apply desc_add_at.
    + rewrite vec_set_vec_ne by assumption. reflexivity.
Qed.

Lemma X8_witness :
  wf kafka /\
  exists m',
    replay [BrokerConnect (broker 1) 0 None None;
            BrokerDisconnect (broker 1) None] kafka = Ok (tt, m') /\
    Metrics_Registry m' = Some 1%positive.
Proof.
  split; [apply wf_kafka |].
  assert (Hrun : exists m',
             replay [BrokerConnect (broker 1) 0 None None;
                     BrokerDisconnect (broker 1) None] kafka = Ok (tt, m'))
    by (eexists; vm_compute; reflexivity).
  destruct Hrun as [m' Hrun]. exists m'. split; [exact Hrun |].
  exact (proj1 (X8_configuration_is_stable _ kafka m' wf_kafka Hrun)).
Defined.

End TupleFacts.

(** ** Options and construction as a whole *)

Section ConstructionFacts.
Context `{Library}.
Implicit Types (h : heap) (l : loc) (ds : list string) (dss : list (list string)).

Lemma configure_snoc (r0 : ptr) (opts : list Opt) (o : Opt) :
  configure r0 (opts ++ [o]) = apply o (configure r0 opts).
Proof. unfold configure. rewrite fold_left_app. reflexivity. Qed.

Lemma configure_choices (r0 : ptr) (cs : list Choice) :
  reg (configure r0 (map option_of cs))
  = default r0 (last (omap chosen_registry cs)) /\
  goCollectors (configure r0 (map option_of cs))
  = existsb chooses_go_collectors cs /\
  handlerOpts (configure r0 (map option_of cs))
  = default promhttp.zero (last (omap chosen_handler_opts cs)).
Proof.
  induction cs as [| ch cs (IHr & IHg & IHh)] using rev_ind;
    [repeat split; reflexivity |].
  rewrite map_app. cbn [map]. rewrite configure_snoc, !omap_app, existsb_app.
  destruct ch as [r | | o]; cbn [map option_of omap chosen_registry
    chosen_handler_opts chooses_go_collectors existsb mbind option_bind];
    simpl; rewrite ?app_nil_r, ?last_snoc, ?orb_false_r, ?orb_true_r;
    repeat split; assumption || reflexivity.
Qed.

(** Registering in two steps is registering at once. *)
Lemma Register_app ds1 ds2 (r : prometheus.Registry) :
  Register (ds1 ++ ds2) r
  = match Register ds1 r with
    | Some r1 => Register ds2 r1
    | None => None
    end.
Proof.
  unfold Register.
  rewrite !forallb_app, distinct_app.
  assert (Hmem : forallb (fun d => negb (mem d (names r ++ ds1))) ds2
                 = forallb (fun d => negb (mem d (names r))) ds2
                   && forallb (fun d => negb (mem d ds1)) ds2).
  { induction ds2 as [| d ds2 IH]; [reflexivity |].
    cbn [forallb]. rewrite IH, mem_app.
    destruct (mem d (names r)), (mem d ds1); simpl;
      rewrite ?andb_false_r; reflexivity. }
  destruct (forallb IsValidMetricName ds1), (forallb _ ds1), (distinct ds1);
    simpl; try reflexivity; rewrite ?andb_false_r; try reflexivity.
  rewrite Hmem, app_assoc.
  destruct (forallb IsValidMetricName ds2),
    (forallb (fun d => negb (mem d (names r))) ds2),
    (forallb (fun d => negb (mem d ds1)) ds2), (distinct ds2); reflexivity.
Qed.

Lemma Register_nil (r : prometheus.Registry) : Register [] r = Some r.
Proof. unfold Register. simpl. rewrite app_nil_r. destruct r; reflexivity. Qed.

Lemma register_all_batch l dss h (r : prometheus.Registry) :
  h !! l = Some r ->
  register_all (Some l) dss h
  = match Register (concat dss) r with
    | Some r' => Ok (tt, <[l := r']> h)
    | None => Panic "registration failed"
    end.
Proof.
  revert h r. induction dss as [| ds dss IH]; intros h r Hl.
  - simpl concat. rewrite Register_nil. simpl. unfold ret.
    rewrite (insert_id _ _ _ Hl). reflexivity.
  - simpl concat. rewrite Register_app. simpl register_all.
    unfold bind at 1, MustRegister. rewrite Hl.
    destruct (Register ds r) as [r1|]; [| reflexivity].
    rewrite (IH _ r1) by apply lookup_insert_eq.
    destruct (Register (concat dss) r1) as [r'|]; [| reflexivity].
    rewrite insert_insert_eq. reflexivity.
Qed.

Lemma registrations_cons (c : cfg) namespace :
  exists ds dss, registrations c namespace = ds :: dss.
Proof. unfold registrations. destruct (goCollectors c); simpl; eauto. Qed.

(** Construction is one registration of all the names at once. *)
Lemma NewMetrics_batch namespace (opts : list Opt) h :
  let l0 := fresh (dom h) in
  let c := configure (Some l0) opts in
  let h1 := <[l0 := {| names := [] |}]> h in
  NewMetrics namespace opts h
  = match reg c with
    | None => Panic "invalid memory address or nil pointer dereference"
    | Some l =>
        match h1 !! l with
        | None => Panic "invalid memory address or nil pointer dereference"
        | Some r =>
            match Register (concat (registrations c namespace)) r with
            | Some r' => Ok (built c namespace, <[l := r']> h1)
            | None => Panic "registration failed"
            end
        end
    end.
Proof.
  intros l0 c h1. rewrite NewMetrics_unfold. fold l0. fold c. fold h1.
  destruct (reg c) as [l|].
  - destruct (h1 !! l) as [r|] eqn:Hl.
    + rewrite (register_all_batch l _ _ r Hl).
      destruct (Register _ r); reflexivity.
    + destruct (registrations_cons c namespace) as (ds & dss & ->).
      simpl. unfold bind, MustRegister. rewrite Hl. reflexivity.
  - destruct (registrations_cons c namespace) as (ds & dss & ->). reflexivity.
Qed.

Lemma Register_Some_iff ds (r r' : prometheus.Registry) :
  Register ds r = Some r' <->
  forallb IsValidMetricName ds = true /\
  (forall x, In x ds -> ~ In x (names r)) /\
  distinct ds = true /\
  r' = {| names := names r ++ ds |}.
Proof.
  unfold Register.
  assert (Hfresh : forallb (fun d => negb (mem d (names r))) ds = true
                   <-> forall x, In x ds -> ~ In x (names r)).
  { rewrite forallb_forall. split; intros Hall x Hx.
    - intros Hr. apply mem_In in Hr. specialize (Hall x Hx).
      rewrite Hr in Hall. discriminate.
    - apply negb_true_iff, not_true_is_false. intros Hm.
      apply mem_In in Hm. exact (Hall x Hx Hm). }
  split.
  - destruct (forallb IsValidMetricName ds); [| discriminate].
    destruct (forallb _ ds) eqn:Hf; [| discriminate].
    destruct (distinct ds); [| discriminate].
    intros [= <-]. repeat split; try reflexivity. apply Hfresh. reflexivity.
  - intros (-> & Hf & -> & ->). apply Hfresh in Hf. rewrite Hf. reflexivity.
Qed.

End ConstructionFacts.

Section ConstructionProperties.
Context `{Library}.
Implicit Types (h : heap) (l : loc) (m : Metrics).

(** X9: of the options given to NewMetrics, the last Registry option
    decides the registry (a new one if there is none), the last
    HandlerOpts option decides the handler options (the zero value if
    there is none), and the auxiliary collectors are enabled exactly
    when GoCollectors is among the options, wherever it stands.
    Registry() returns that registry and Handler() serves it with
    those options. *)
Theorem X9_last_option_wins namespace (cs : list Choice) h m h' :
  NewMetrics namespace (map option_of cs) h = Ok (m, h') ->
  Metrics_Registry m
  = default (Some (fresh (dom h))) (last (omap chosen_registry cs)) /\
  Metrics_Handler m
  = promhttp.HandlerFor (Metrics_Registry m)
      (default promhttp.zero (last (omap chosen_handler_opts cs))) /\
  goCollectors (Metrics_cfg m) = existsb chooses_go_collectors cs.
Proof.
  intros Hrun. apply NewMetrics_Ok_built in Hrun. subst m.
  destruct (configure_choices (Some (fresh (dom h))) cs) as (Hr & Hg & Ho).
  unfold Metrics_Registry, Metrics_Handler. cbn [Metrics_cfg built].
  rewrite Ho. repeat split; assumption.
Qed.

(** X10: NewMetrics returns exactly when the registry the options end
    up with is a registry (not nil), every name to register is a valid
    metric name, none of them is in that registry yet, and they are
    distinct.  It then returns the struct of nine empty vectors, and
    the heap differs from the one before in two places only: the new
    registry NewMetrics always makes, and the chosen registry, which
    holds its old names followed by the new ones. *)
Theorem X10_construction_succeeds_iff namespace (opts : list Opt) h m h' :
  let l0 := fresh (dom h) in
  let c := configure (Some l0) opts in
  let h1 := <[l0 := {| names := [] |}]> h in
  let expected := concat (registrations c namespace) in
  NewMetrics namespace opts h = Ok (m, h') <->
  exists l r,
    reg c = Some l /\ h1 !! l = Some r /\
    forallb IsValidMetricName expected = true /\
    (forall x, In x expected -> ~ In x (names r)) /\
    distinct expected = true /\
    m = built c namespace /\
    h' = <[l := {| names := names r ++ expected |}]> h1.
Proof.
  intros l0 c h1 expected. rewrite NewMetrics_batch.
  fold l0. fold c. fold h1. fold expected. split.
  - destruct (reg c) as [l|]; [| discriminate].
    destruct (h1 !! l) as [r|] eqn:Hl; [| discriminate].
    destruct (Register expected r) as [r'|] eqn:Hreg; [| discriminate].
    intros [= <- <-].
    apply Register_Some_iff in Hreg as (Hv & Hf & Hd & ->).
    exists l, r. repeat split; assumption || reflexivity.
  - intros (l & r & -> & -> & Hv & Hf & Hd & -> & ->).
    assert (Hreg : Register expected r = Some {| names := names r ++ expected |})
      by (apply Register_Some_iff; auto).
    rewrite Hreg. reflexivity.
Qed.

(** X11: construction cannot be repeated on one registry: after
    NewMetrics has returned an aggregator, a second NewMetrics with the
    same namespace whose options end up with the registry of the first
    panics, whatever else the options say. *)
Theorem X11_second_construction_panics namespace (opts opts2 : list Opt) h m h' :
  NewMetrics namespace opts h = Ok (m, h') ->
  reg (configure (Some (fresh (dom h'))) opts2) = Metrics_Registry m ->
  exists msg, NewMetrics namespace opts2 h' = Panic msg.
Proof.
  rewrite NewMetrics_batch. cbv zeta.
  destruct (reg (configure (Some (fresh (dom h))) opts)) as [l|] eqn:Hl;
    [| discriminate].
  destruct (_ !! l) as [r|]; [| discriminate].
  destruct (Register _ r) as [r'|] eqn:Hreg; [| discriminate].
  intros [= <- <-] Hsame.
  unfold Metrics_Registry in Hsame. cbn [Metrics_cfg built] in Hsame.
  rewrite Hl in Hsame.
  apply Register_Some_iff in Hreg as (_ & _ & _ & ->).
  rewrite NewMetrics_batch. cbv zeta. rewrite Hsame.
  set (h' := <[l := _]> _).
  assert (Hl' : h' !! l = Some {| names := names r ++ concat
             (registrations (configure (Some (fresh (dom h))) opts) namespace) |})
    by apply lookup_insert_eq.
  assert (Hne : fresh (dom h') <> l).
  { intros E. pose proof (is_fresh (dom h')) as Hfresh.
    apply Hfresh. rewrite E. apply elem_of_dom. eauto. }
  rewrite lookup_insert_ne, Hl' by exact Hne.
  rewrite (Register_collision _ _ (fq namespace connects_total)).
  - eauto.
  - simpl. apply in_or_app. right. rewrite concat_registrations.
    apply in_or_app. right. apply in_map, families_complete.
  - rewrite concat_registrations. apply in_or_app. right.
    apply in_map, families_complete.
Qed.

(** X12: a nil registry is no registry: when the options end up with
    the nil pointer as registry, as after the option Registry(nil),
    NewMetrics panics on the first registration with a nil
    dereference and returns no aggregator. *)
Theorem X12_nil_registry_panics namespace (opts : list Opt) h :
  reg (configure (Some (fresh (dom h))) opts) = None ->
  NewMetrics namespace opts h
  = Panic "invalid memory address or nil pointer dereference".
Proof.
  intros Hnil. rewrite NewMetrics_batch. cbv zeta. rewrite Hnil. reflexivity.
Qed.

(** X13: with GoCollectors, the auxiliary collectors are registered
    into the chosen registry too: when that registry is a supplied one
    that already holds a descriptor of the process collector or of the
    Go collector, NewMetrics panics. *)
Theorem X13_go_collectors_collide namespace (opts : list Opt) h l
    (r : prometheus.Registry) (x : string) :
  reg (configure (Some (fresh (dom h))) opts) = Some l ->
  goCollectors (configure (Some (fresh (dom h))) opts) = true ->
  h !! l = Some r ->
  In x (ProcessCollectorDescs ++ GoCollectorDescs)%list ->
  In x (names r) ->
  exists msg, NewMetrics namespace opts h = Panic msg.
Proof.
  intros Hreg Hgo Hl Hx Hr. rewrite NewMetrics_batch. cbv zeta. rewrite Hreg.
  assert (Hne : fresh (dom h) <> l).
  { intros E. pose proof (is_fresh (dom h)) as Hfresh.
    apply Hfresh. rewrite E. apply elem_of_dom. eauto. }
  rewrite lookup_insert_ne, Hl by exact Hne.
  rewrite (Register_collision _ _ x); [eauto | exact Hr |].
  rewrite concat_registrations, Hgo. apply in_or_app. left. exact Hx.
Qed.

End ConstructionProperties.

Lemma X9_witness :
  exists m h',
    @NewMetrics client_golang "kafka"
      (map option_of [UseRegistry (Some 7%positive); UseGoCollectors;
                      UseRegistry (Some 3%positive)])
      {[ 3%positive := {| names := [] |}; 7%positive := {| names := [] |} ]}
    = Ok (m, h') /\
    Metrics_Registry m = Some 3%positive /\
    goCollectors (Metrics_cfg m) = true.
Proof.
  assert (Hrun : exists m h',
    @NewMetrics client_golang "kafka"
      (map option_of [UseRegistry (Some 7%positive); UseGoCollectors;
                      UseRegistry (Some 3%positive)])
      {[ 3%positive := {| names := [] |}; 7%positive := {| names := [] |} ]}
    = Ok (m, h'))
    by (eexists _, _; vm_compute; reflexivity).
  destruct Hrun as (m & h' & Hrun). exists m, h'. split; [exact Hrun |].
  destruct (@X9_last_option_wins client_golang _ _ _ _ _ Hrun) as (Hr & _ & Hg).
  split; [exact Hr | exact Hg].
Defined.

Lemma X10_witness :
  exists m h',
    @NewMetrics client_golang "kafka" [Registry (Some 7%positive)]
      {[ 7%positive := {| names := ["http_requests_total"] |} ]}
    = Ok (m, h') /\
    h' !! 7%positive
    = Some {| names := "http_requests_total" :: map (fq "kafka") families |}.
Proof.
  eexists _, _. split.
  - apply (@X10_construction_succeeds_iff client_golang).
    exists 7%positive, {| names := ["http_requests_total"] |}.
    split; [reflexivity |]. split; [vm_compute; reflexivity |].
    split; [vm_compute; reflexivity |].
    split; [intros x Hx Hr; vm_compute in Hx, Hr; intuition congruence |].
    split; [vm_compute; reflexivity |]. split; reflexivity.
  - vm_compute. reflexivity.
Defined.

Lemma X11_witness :
  exists m h',
    @NewMetrics client_golang "kafka" [Registry (Some 7%positive)]
      {[ 7%positive := {| names := [] |} ]} = Ok (m, h') /\
    exists msg,
      @NewMetrics client_golang "kafka" [GoCollectors; Registry (Some 7%positive)] h'
      = Panic msg.
Proof.
  assert (Hrun : exists m h',
    @NewMetrics client_golang "kafka" [Registry (Some 7%positive)]
      {[ 7%positive := {| names := [] |} ]} = Ok (m, h'))
    by (eexists _, _; vm_compute; reflexivity).
  destruct Hrun as (m & h' & Hrun). exists m, h'. split; [exact Hrun |].
  apply (@X11_second_construction_panics client_golang _ _ _ _ _ _ Hrun).
  rewrite (NewMetrics_Ok_built _ _ _ _ _ Hrun). reflexivity.
Defined.

Lemma X12_witness :
  @NewMetrics client_golang "kafka" [Registry None] ∅
  = Panic "invalid memory address or nil pointer dereference".
Proof.
  apply (@X12_nil_registry_panics client_golang). reflexivity.
Defined.

Lemma X13_witness :
  exists msg,
    @NewMetrics client_golang "kafka" [Registry (Some 7%positive); GoCollectors]
      {[ 7%positive := {| names := ["go_goroutines"] |} ]}
    = Panic msg.
Proof.
  apply (@X13_go_collectors_collide client_golang "kafka"
           [Registry (Some 7%positive); GoCollectors]
           {[ 7%positive := {| names := ["go_goroutines"] |} ]}
           7%positive {| names := ["go_goroutines"] |} "go_goroutines").
  - reflexivity.
  - reflexivity.
  - vm_compute. reflexivity.
  - vm_compute. tauto.
  - vm_compute. tauto.
Defined.
